(** * Progress tracking and distributed-wrapper unwrapping

    A shallow embedding of [pytorch_lightning/trainer/progress.py] and
    [pytorch_lightning/overrides/fairscale.py].

    Python dataclasses become records, one Rocq [Module] per class.  Methods
    that mutate [self] are computations in a small state-and-exception monad
    [M S A]: the state is the object the method runs on, the outcome is either
    a returned value or a raised Python exception.  The state survives an
    exception, as it does in Python.  Python integers are unbounded, so the
    counters are [Z]; an attribute holding [None] is the Rocq [None].

    The first part works on values (a [Progress] owns its two [Tracker]s).
    Module [Heap] then models object identity, the class-level defaults of
    [OptimizationProgress] and [deepcopy], which is what the independence of
    the optimizer slots of a [BatchLoopProgress] rests on. *)

From stdpp Require Import base option list gmap strings.
From Stdlib Require Import ZArith Lia.

#[local] Open Scope Z_scope.

(** ** Exceptions, outcomes and the method monad *)

Inductive exn :=
| AttributeError (msg : string)
| TypeError (msg : string)
| IndexError (msg : string).

Inductive outcome (A : Type) :=
| Return (a : A)
| Raise (e : exn).
Arguments Return {A} a.
Arguments Raise {A} e.

Definition raises {A} (o : outcome A) : Prop := exists e, o = Raise e.

Definition M (S A : Type) : Type := S -> outcome A * S.

#[global] Instance M_ret {S} : MRet (M S) := fun A a s => (Return a, s).

#[global] Instance M_bind {S} : MBind (M S) := fun A B f m s =>
  match m s with
  | (Return a, s') => f a s'
  | (Raise e, s') => (Raise e, s')
  end.

Definition gets {S A} (f : S -> A) : M S A := fun s => (Return (f s), s).
Definition modify {S} (f : S -> S) : M S unit := fun s => (Return tt, f s).
Definition raise {S A} (e : exn) : M S A := fun s => (Raise e, s).

(** [if c: body] with no [else]. *)
Definition when {S} (c : bool) (body : M S unit) : M S unit :=
  if c then body else mret tt.

(** Outcome and final state of running a method on an object. *)
Definition result {S A} (m : M S A) (s : S) : outcome A := fst (m s).
Definition exec {S A} (m : M S A) (s : S) : S := snd (m s).

(** [n] consecutive calls of the same method. *)
Fixpoint calls {S} (n : nat) (m : M S unit) : M S unit :=
  match n with
  | O => mret tt
  | S k => m ;; calls k m
  end.

(** An attribute path [self.a.b]: how to read the sub-object and how to put
    a new version of it back. *)
Record lens (S T : Type) := mkLens { view : S -> T; put : T -> S -> S }.
Arguments mkLens {S T} view put.
Arguments view {S T} l s.
Arguments put {S T} l t s.

Definition zoom {S T A} (l : lens S T) (m : M T A) : M S A := fun s =>
  let '(r, t') := m (view l s) in (r, put l t' s).

Definition lens_compose {S T U} (l1 : lens S T) (l2 : lens T U) : lens S U :=
  mkLens (fun s => view l2 (view l1 s))
         (fun u s => put l1 (put l2 u (view l1 s)) s).
Infix "/." := lens_compose (at level 40, left associativity).

(** [for x in xs: body(x)] where the body mutates [x] in place; the loop
    stops at the first exception. *)
Fixpoint for_each {A} (body : M A unit) (xs : list A) : outcome unit * list A :=
  match xs with
  | [] => (Return tt, [])
  | x :: rest =>
      match body x with
      | (Return _, x') =>
          let '(r, rest') := for_each body rest in (r, x' :: rest')
      | (Raise e, x') => (Raise e, x' :: rest)
      end
  end.

(** ** The four counters of a [Tracker] *)

Inductive field := Ready | Started | Processed | Completed.

#[global] Instance field_eq_dec : EqDecision field.
Proof. solve_decision. Defined.

Definition field_name (f : field) : string :=
  match f with
  | Ready => "ready"
  | Started => "started"
  | Processed => "processed"
  | Completed => "completed"
  end.

Definition field_of_name (key : string) : option field :=
  if decide (key = "ready") then Some Ready
  else if decide (key = "started") then Some Started
  else if decide (key = "processed") then Some Processed
  else if decide (key = "completed") then Some Completed
  else None.

(** ** class Tracker *)

Module Tracker.

(** The four dataclass fields, each an [Optional[int]], and [extra]: the
    other entries of the instance [__dict__], since Python lets a caller
    assign to an attribute that is not a dataclass field. *)
Record t := mk {
  ready : option Z;
  started : option Z;
  processed : option Z;
  completed : option Z;
  extra : gmap string (option Z)
}.

(** The generated [__init__].  It assigns the four fields through
    [__setattr__]; the instance has no attribute yet at that point, so the
    guard reads the class-level default [0] and never fires. *)
Definition new (ready started processed completed : option Z) : t :=
  mk ready started processed completed ∅.

(** [Tracker()] *)
Definition fresh : t := new (Some 0) (Some 0) (Some 0) (Some 0).

Definition get (f : field) (self : t) : option Z :=
  match f with
  | Ready => ready self
  | Started => started self
  | Processed => processed self
  | Completed => completed self
  end.

Definition set (f : field) (v : option Z) (self : t) : t :=
  match f with
  | Ready => mk v (started self) (processed self) (completed self) (extra self)
  | Started => mk (ready self) v (processed self) (completed self) (extra self)
  | Processed => mk (ready self) (started self) v (completed self) (extra self)
  | Completed => mk (ready self) (started self) (processed self) v (extra self)
  end.

(** The instance's own attributes: [None] when the instance has no
    attribute [key], [Some v] when it holds [v] (which may be Python's
    [None]).  The four fields are always there, [__init__] assigns them. *)
Definition lookup_attr (self : t) (key : string) : option (option Z) :=
  match field_of_name key with
  | Some f => Some (get f self)
  | None => extra self !! key
  end.

(** The attributes of an instance that the class serves through a data
    descriptor.  Such a descriptor comes before the instance's own
    attributes, for reading and for writing alike. *)
Inductive descriptor := The__class__ | The__dict__ | The__weakref__.

Definition descriptor_of_name (key : string) : option descriptor :=
  if decide (key = "__class__") then Some The__class__
  else if decide (key = "__dict__") then Some The__dict__
  else if decide (key = "__weakref__") then Some The__weakref__
  else None.

(** [getattr(self, key, 0) is None].  The attribute is looked up in
    Python's order:
    - a data descriptor of the class: [__class__] is the class and
      [__dict__] the instance dictionary, neither is [None];
      [__weakref__] is [None], as the program takes no weak reference to
      a tracker;
    - the instance's own attribute, if it has one;
    - another attribute of the class.  [@dataclass] generates [__eq__]
      and so sets [__hash__ = None]; every other one (the field defaults
      [0], the methods, [__doc__], [__module__], [__annotations__],
      [__dataclass_fields__], [__dataclass_params__], the methods of
      [object]) is not [None];
    - failing all that, the default [0]. *)
Definition getattr_is_None (self : t) (key : string) : bool :=
  match descriptor_of_name key with
  | Some The__weakref__ => true
  | Some The__class__ | Some The__dict__ => false
  | None =>
      match lookup_attr self key with
      | Some v => bool_decide (v = None)
      | None => bool_decide (key = "__hash__")
      end
  end.

(** Storing a value among the instance's own attributes. *)
Definition store (key : string) (value : option Z) (self : t) : t :=
  match field_of_name key with
  | Some f => set f value self
  | None =>
      mk (ready self) (started self) (processed self) (completed self)
         (<[key := value]> (extra self))
  end.

(** [type(value).__name__] of an [Optional[int]] *)
Definition type_name (value : option Z) : string :=
  match value with
  | Some _ => "int"
  | None => "NoneType"
  end.

(** [super().__setattr__(key, value)], that is [object.__setattr__].  A
    data descriptor of the class takes the assignment: [__class__] accepts
    a class only and [__dict__] a dictionary only, [__weakref__] cannot be
    written.  Any other name is stored in the instance. *)
Definition object_setattr (key : string) (value : option Z) : M t unit :=
  match descriptor_of_name key with
  | Some The__class__ =>
      raise (TypeError ("__class__ must be set to a class, not '"
                        +:+ type_name value +:+ "' object"))
  | Some The__dict__ =>
      raise (TypeError ("__dict__ must be set to a dictionary, not a '"
                        +:+ type_name value +:+ "'"))
  | Some The__weakref__ =>
      raise (AttributeError
               "attribute '__weakref__' of 'Tracker' objects is not writable")
  | None => modify (store key value)
  end.

Definition unused_msg (key : string) : string :=
  "The '" +:+ key +:+ "' attribute is meant to be unused".

Definition __setattr__ (key : string) (value : option Z) : M t unit :=
  unused ← gets (fun self => getattr_is_None self key);
  if unused : bool
  then raise (AttributeError (unused_msg key))
  else object_setattr key value.

Definition reset : M t unit :=
  r ← gets ready;
  when (bool_decide (r ≠ None)) (__setattr__ "ready" (Some 0));;
  s ← gets started;
  when (bool_decide (s ≠ None)) (__setattr__ "started" (Some 0));;
  p ← gets processed;
  when (bool_decide (p ≠ None)) (__setattr__ "processed" (Some 0));;
  c ← gets completed;
  when (bool_decide (c ≠ None)) (__setattr__ "completed" (Some 0)).

(** [self.<f> += n]: read the attribute, add, assign through
    [__setattr__].  Adding to [None] is Python's [TypeError]. *)
Definition iadd (f : field) (n : Z) : M t unit :=
  cur ← gets (get f);
  match cur with
  | Some z => __setattr__ (field_name f) (Some (z + n))
  | None =>
      raise (TypeError "unsupported operand type(s) for +=: 'NoneType' and 'int'")
  end.

(** The dataclass [__eq__]: the tuples of the four fields are compared. *)
Definition eqb (a b : t) : bool :=
  bool_decide ((ready a, started a, processed a, completed a)
               = (ready b, started b, processed b, completed b)).

End Tracker.

(** ** class Progress *)

Module Progress.

Record t := mk { total : Tracker.t; current : Tracker.t }.

Definition _total : lens t Tracker.t :=
  mkLens total (fun x self => mk x (current self)).
Definition _current : lens t Tracker.t :=
  mkLens current (fun x self => mk (total self) x).

(** [Progress()]: both fields come from [default_factory=Tracker]. *)
Definition fresh : t := mk Tracker.fresh Tracker.fresh.

Definition is_None (v : option Z) : bool := bool_decide (v = None).

Definition increment_ready : M t unit :=
  a ← gets (fun self => Tracker.ready (total self));
  b ← gets (fun self => Tracker.ready (current self));
  if is_None a || is_None b then mret tt
  else zoom _total (Tracker.iadd Ready 1);;
       zoom _current (Tracker.iadd Ready 1).

Definition increment_started : M t unit :=
  a ← gets (fun self => Tracker.started (total self));
  b ← gets (fun self => Tracker.started (current self));
  if is_None a || is_None b then mret tt
  else zoom _total (Tracker.iadd Started 1);;
       zoom _current (Tracker.iadd Started 1).

Definition increment_processed : M t unit :=
  a ← gets (fun self => Tracker.processed (total self));
  b ← gets (fun self => Tracker.processed (current self));
  if is_None a || is_None b then mret tt
  else zoom _total (Tracker.iadd Processed 1);;
       zoom _current (Tracker.iadd Processed 1).

Definition increment_completed : M t unit :=
  a ← gets (fun self => Tracker.completed (total self));
  b ← gets (fun self => Tracker.completed (current self));
  if is_None a || is_None b then mret tt
  else zoom _total (Tracker.iadd Completed 1);;
       zoom _current (Tracker.iadd Completed 1).

(** [increment_<F>], selected by the field. *)
Definition increment (f : field) : M t unit :=
  match f with
  | Ready => increment_ready
  | Started => increment_started
  | Processed => increment_processed
  | Completed => increment_completed
  end.

(** [from_defaults]: its keyword arguments are passed on to both
    [Tracker] constructors; those left out by the caller take the
    [Tracker] default [0]. *)
Definition from_defaults (ready started processed completed : option Z) : t :=
  mk (Tracker.new ready started processed completed)
     (Tracker.new ready started processed completed).

End Progress.

(** ** class LoopProgress *)

Module LoopProgress.

Record t := mk { epoch : Progress.t; batch : Progress.t }.

Definition _epoch : lens t Progress.t :=
  mkLens epoch (fun x self => mk x (batch self)).
Definition _batch : lens t Progress.t :=
  mkLens batch (fun x self => mk (epoch self) x).

(** [LoopProgress()] *)
Definition fresh : t := mk Progress.fresh Progress.fresh.

Definition reset_on_epoch : M t unit :=
  zoom (_batch /. Progress._current) Tracker.reset;;
  zoom (_epoch /. Progress._current) Tracker.reset.

Definition increment_epoch_completed : M t unit :=
  zoom _epoch Progress.increment_completed;;
  reset_on_epoch.

End LoopProgress.

(** ** class OptimizationProgress *)

Module OptimizationProgress.

Record t := mk {
  optimizer : Progress.t;
  scheduler : Progress.t;
  zero_grad : Progress.t
}.

Definition _optimizer : lens t Progress.t :=
  mkLens optimizer (fun x self => mk x (scheduler self) (zero_grad self)).
Definition _scheduler : lens t Progress.t :=
  mkLens scheduler (fun x self => mk (optimizer self) x (zero_grad self)).
Definition _zero_grad : lens t Progress.t :=
  mkLens zero_grad (fun x self => mk (optimizer self) (scheduler self) x).

(** The value of [OptimizationProgress()] as long as nobody has mutated the
    class-level defaults: [from_defaults(processed=None)],
    [from_defaults(started=None, processed=None)] and
    [from_defaults(processed=None)]. *)
Definition fresh : t :=
  mk (Progress.from_defaults (Some 0) (Some 0) None (Some 0))
     (Progress.from_defaults (Some 0) None None (Some 0))
     (Progress.from_defaults (Some 0) (Some 0) None (Some 0)).

(** The two properties only read an attribute. *)
Definition optimizer_steps : M t (option Z) :=
  gets (fun self => Tracker.completed (Progress.total (optimizer self))).

Definition scheduler_steps : M t (option Z) :=
  gets (fun self => Tracker.completed (Progress.total (scheduler self))).

End OptimizationProgress.

(** ** class BatchLoopProgress *)

Module BatchLoopProgress.

Record t := mk {
  batch : Progress.t;
  optimizer_idx : option Z;
  num_optimizers : Z;
  optimizations : list OptimizationProgress.t
}.

Definition _batch : lens t Progress.t :=
  mkLens batch
    (fun x self => mk x (optimizer_idx self) (num_optimizers self) (optimizations self)).
Definition _optimizations : lens t (list OptimizationProgress.t) :=
  mkLens optimizations
    (fun x self => mk (batch self) (optimizer_idx self) (num_optimizers self) x).

(** [__init__] followed by [__post_init__]:
    [range(num_optimizers)] is empty for a negative argument.  On values
    every slot is a copy of the defaults; that the copies are separate
    objects is the subject of [Heap.BatchLoopProgress_new]. *)
Definition new (batch : Progress.t) (optimizer_idx : option Z)
    (num_optimizers : Z) : t :=
  mk batch optimizer_idx num_optimizers
     (replicate (Z.to_nat num_optimizers) OptimizationProgress.fresh).

(** [BatchLoopProgress()] *)
Definition fresh : t := new Progress.fresh (Some 0) 1.

(** The body of the loop over the optimizer slots, shared by the two
    [reset_on_batch] methods of the source. *)
Definition reset_slot : M OptimizationProgress.t unit :=
  zoom (OptimizationProgress._optimizer /. Progress._current) Tracker.reset;;
  zoom (OptimizationProgress._scheduler /. Progress._current) Tracker.reset;;
  zoom (OptimizationProgress._zero_grad /. Progress._current) Tracker.reset.

Definition reset_on_batch : M t unit :=
  zoom _optimizations (for_each reset_slot);;
  zoom (_batch /. Progress._current) Tracker.reset.

End BatchLoopProgress.

(** ** class TrainingLoopProgress(LoopProgress) *)

Module TrainingLoopProgress.

(** [epoch] and [batch] are inherited from [LoopProgress] ([epoch] is
    declared again with the same default), [batch_loop] is added. *)
Record t := mk {
  epoch : Progress.t;
  batch : Progress.t;
  batch_loop : BatchLoopProgress.t
}.

Definition _epoch : lens t Progress.t :=
  mkLens epoch (fun x self => mk x (batch self) (batch_loop self)).
Definition _batch : lens t Progress.t :=
  mkLens batch (fun x self => mk (epoch self) x (batch_loop self)).
Definition _batch_loop : lens t BatchLoopProgress.t :=
  mkLens batch_loop (fun x self => mk (epoch self) (batch self) x).

(** [TrainingLoopProgress()] *)
Definition fresh : t := mk Progress.fresh Progress.fresh BatchLoopProgress.fresh.

(** [optimizations] is a tuple, so the source's test
    [self.batch_loop.optimizations is not None] always holds. *)
Definition reset_on_batch : M t unit :=
  zoom (_batch_loop /. BatchLoopProgress._optimizations)
       (for_each BatchLoopProgress.reset_slot).

(** The override that avoids resetting [epoch.current]. *)
Definition reset_on_epoch : M t unit :=
  zoom _batch_loop BatchLoopProgress.reset_on_batch.

Definition increment_epoch_completed : M t unit :=
  zoom _epoch Progress.increment_completed;;
  reset_on_epoch.

End TrainingLoopProgress.

(** ** class FitLoopProgress *)

Module FitLoopProgress.

Record t := mk { train : TrainingLoopProgress.t; val : LoopProgress.t }.

Definition _train : lens t TrainingLoopProgress.t :=
  mkLens train (fun x self => mk x (val self)).
Definition _val : lens t LoopProgress.t :=
  mkLens val (fun x self => mk (train self) x).

(** [FitLoopProgress()] *)
Definition fresh : t := mk TrainingLoopProgress.fresh LoopProgress.fresh.

End FitLoopProgress.

(** ** The public operations on a [FitLoopProgress] and what it contains *)

(** The three [Progress] attributes of an [OptimizationProgress]. *)
Inductive part := Optimizer | Scheduler | ZeroGrad.

#[global] Instance part_eq_dec : EqDecision part.
Proof. solve_decision. Defined.

Definition _part (p : part) : lens OptimizationProgress.t Progress.t :=
  match p with
  | Optimizer => OptimizationProgress._optimizer
  | Scheduler => OptimizationProgress._scheduler
  | ZeroGrad => OptimizationProgress._zero_grad
  end.

(** [xs[i].method()] on a tuple: out of range is an [IndexError]. *)
Definition at_index {A B} (i : nat) (m : M A B) : M (list A) B := fun xs =>
  match xs !! i with
  | Some x => let '(r, x') := m x in (r, <[i := x']> xs)
  | None => (Raise (IndexError "tuple index out of range"), xs)
  end.

(** Every [Progress] reachable from a [FitLoopProgress] [fit]. *)
Inductive progress_ref :=
| TrainEpoch                      (* fit.train.epoch *)
| TrainBatch                      (* fit.train.batch *)
| BatchLoopBatch                  (* fit.train.batch_loop.batch *)
| Slot (i : nat) (p : part)       (* fit.train.batch_loop.optimizations[i].<p> *)
| ValEpoch                        (* fit.val.epoch *)
| ValBatch.                       (* fit.val.batch *)

Definition on_progress {A} (r : progress_ref) (m : M Progress.t A)
    : M FitLoopProgress.t A :=
  match r with
  | TrainEpoch => zoom (FitLoopProgress._train /. TrainingLoopProgress._epoch) m
  | TrainBatch => zoom (FitLoopProgress._train /. TrainingLoopProgress._batch) m
  | BatchLoopBatch =>
      zoom (FitLoopProgress._train /. TrainingLoopProgress._batch_loop
            /. BatchLoopProgress._batch) m
  | Slot i p =>
      zoom (FitLoopProgress._train /. TrainingLoopProgress._batch_loop
            /. BatchLoopProgress._optimizations)
           (at_index i (zoom (_part p) m))
  | ValEpoch => zoom (FitLoopProgress._val /. LoopProgress._epoch) m
  | ValBatch => zoom (FitLoopProgress._val /. LoopProgress._batch) m
  end.

Inductive call :=
| Increment (r : progress_ref) (f : field)   (* <r>.increment_<f>() *)
| TrainIncrementEpochCompleted               (* fit.train.increment_epoch_completed() *)
| TrainResetOnEpoch                          (* fit.train.reset_on_epoch() *)
| TrainResetOnBatch                          (* fit.train.reset_on_batch() *)
| BatchLoopResetOnBatch                      (* fit.train.batch_loop.reset_on_batch() *)
| ValIncrementEpochCompleted                 (* fit.val.increment_epoch_completed() *)
| ValResetOnEpoch.                           (* fit.val.reset_on_epoch() *)

Definition is_reset (c : call) : bool :=
  match c with
  | TrainResetOnEpoch | TrainResetOnBatch | BatchLoopResetOnBatch | ValResetOnEpoch => true
  | _ => false
  end.

Definition run_call (c : call) : M FitLoopProgress.t unit :=
  match c with
  | Increment r f => on_progress r (Progress.increment f)
  | TrainIncrementEpochCompleted =>
      zoom FitLoopProgress._train TrainingLoopProgress.increment_epoch_completed
  | TrainResetOnEpoch => zoom FitLoopProgress._train TrainingLoopProgress.reset_on_epoch
  | TrainResetOnBatch => zoom FitLoopProgress._train TrainingLoopProgress.reset_on_batch
  | BatchLoopResetOnBatch =>
      zoom (FitLoopProgress._train /. TrainingLoopProgress._batch_loop)
           BatchLoopProgress.reset_on_batch
  | ValIncrementEpochCompleted =>
      zoom FitLoopProgress._val LoopProgress.increment_epoch_completed
  | ValResetOnEpoch => zoom FitLoopProgress._val LoopProgress.reset_on_epoch
  end.

(** A sequence of calls made one after the other by a caller that carries on
    after an exception. *)
Fixpoint run_calls (cs : list call) (fit : FitLoopProgress.t) : FitLoopProgress.t :=
  match cs with
  | [] => fit
  | c :: rest => run_calls rest (exec (run_call c) fit)
  end.

(** All the [total] trackers of a [FitLoopProgress], in a fixed order. *)
Definition slot_totals (o : OptimizationProgress.t) : list Tracker.t :=
  [ Progress.total (OptimizationProgress.optimizer o);
    Progress.total (OptimizationProgress.scheduler o);
    Progress.total (OptimizationProgress.zero_grad o) ].

Definition totals (fit : FitLoopProgress.t) : list Tracker.t :=
  let tr := FitLoopProgress.train fit in
  let bl := TrainingLoopProgress.batch_loop tr in
  let va := FitLoopProgress.val fit in
  [ Progress.total (TrainingLoopProgress.epoch tr);
    Progress.total (TrainingLoopProgress.batch tr);
    Progress.total (BatchLoopProgress.batch bl) ]
  ++ flat_map slot_totals (BatchLoopProgress.optimizations bl)
  ++ [ Progress.total (LoopProgress.epoch va);
       Progress.total (LoopProgress.batch va) ].

(** A counter has not gone down, and has stayed enabled or disabled. *)
Definition counter_le (a b : option Z) : Prop :=
  match a, b with
  | Some x, Some y => x <= y
  | None, None => True
  | _, _ => False
  end.

Definition tracker_le (a b : Tracker.t) : Prop :=
  forall f, counter_le (Tracker.get f a) (Tracker.get f b).

(** A counter is unchanged or one higher. *)
Definition counter_step (a b : option Z) : Prop :=
  b = a \/ exists x, a = Some x /\ b = Some (x + 1).

Definition tracker_step (a b : Tracker.t) : Prop :=
  forall f, counter_step (Tracker.get f a) (Tracker.get f b).

(** What [Tracker.reset] leaves behind, as a function. *)
Definition zeroed (v : option Z) : option Z :=
  match v with
  | Some _ => Some 0
  | None => None
  end.

Definition reset_tracker (x : Tracker.t) : Tracker.t :=
  Tracker.mk (zeroed (Tracker.ready x)) (zeroed (Tracker.started x))
             (zeroed (Tracker.processed x)) (zeroed (Tracker.completed x))
             (Tracker.extra x).

Definition reset_current (p : Progress.t) : Progress.t :=
  Progress.mk (Progress.total p) (reset_tracker (Progress.current p)).

Definition reset_slot_currents (o : OptimizationProgress.t) : OptimizationProgress.t :=
  OptimizationProgress.mk
    (reset_current (OptimizationProgress.optimizer o))
    (reset_current (OptimizationProgress.scheduler o))
    (reset_current (OptimizationProgress.zero_grad o)).

(** What a caller can do to a [Tracker] [t]. *)
Inductive tracker_call :=
| Assign (key : string) (v : option Z)   (* t.<key> = v *)
| ResetAll                               (* t.reset() *)
| AddTo (f : field) (n : Z).             (* t.<f> += n *)

Definition run_tracker_call (c : tracker_call) : M Tracker.t unit :=
  match c with
  | Assign key v => Tracker.__setattr__ key v
  | ResetAll => Tracker.reset
  | AddTo f n => Tracker.iadd f n
  end.

(** The calls are made one after the other; an exception raised by one of
    them does not stop the caller. *)
Fixpoint run_tracker_calls (cs : list tracker_call) (x : Tracker.t) : Tracker.t :=
  match cs with
  | [] => x
  | c :: rest => run_tracker_calls rest (exec (run_tracker_call c) x)
  end.

(** What [increment_<f>] leaves behind, as a function. *)
Definition incremented (f : field) (p : Progress.t) : Progress.t :=
  match Tracker.get f (Progress.total p), Tracker.get f (Progress.current p) with
  | Some a, Some b =>
      Progress.mk (Tracker.set f (Some (a + 1)) (Progress.total p))
                  (Tracker.set f (Some (b + 1)) (Progress.current p))
  | _, _ => p
  end.

(** An [OptimizationProgress] whose optimizer and scheduler were built with
    [from_defaults(processed=None, completed=None)]. *)
Definition steps_disabled_example : OptimizationProgress.t :=
  OptimizationProgress.mk
    (Progress.from_defaults (Some 0) (Some 0) None None)
    (Progress.from_defaults (Some 0) (Some 0) None None)
    (Progress.from_defaults (Some 0) (Some 0) None (Some 0)).

(** A [TrainingLoopProgress()] after one
    [batch_loop.batch.increment_ready()]. *)
Definition one_batch_ready : TrainingLoopProgress.t :=
  exec (zoom (TrainingLoopProgress._batch_loop /. BatchLoopProgress._batch)
             Progress.increment_ready)
       TrainingLoopProgress.fresh.

(** ** Vocabulary for the further properties *)

(** A sequence of [increment_<f>] calls on one [Progress]. *)
Fixpoint increments (fs : list field) : M Progress.t unit :=
  match fs with
  | [] => mret tt
  | f :: rest => Progress.increment f;; increments rest
  end.

(** A call that only counts: it neither disables a field (by assigning
    [None]) nor creates an attribute outside the four fields. *)
Definition is_counting (c : tracker_call) : bool :=
  match c with
  | Assign key v =>
      match field_of_name key, v with
      | Some _, Some _ => true
      | _, _ => false
      end
  | ResetAll | AddTo _ _ => true
  end.

(** Every [Progress] of a [FitLoopProgress], in a fixed order. *)
Definition slot_progresses (o : OptimizationProgress.t) : list Progress.t :=
  [ OptimizationProgress.optimizer o;
    OptimizationProgress.scheduler o;
    OptimizationProgress.zero_grad o ].

Definition progresses (fit : FitLoopProgress.t) : list Progress.t :=
  let tr := FitLoopProgress.train fit in
  let bl := TrainingLoopProgress.batch_loop tr in
  let va := FitLoopProgress.val fit in
  [ TrainingLoopProgress.epoch tr;
    TrainingLoopProgress.batch tr;
    BatchLoopProgress.batch bl ]
  ++ flat_map slot_progresses (BatchLoopProgress.optimizations bl)
  ++ [ LoopProgress.epoch va; LoopProgress.batch va ].

(** What one public call can do to one [Progress]: nothing, one increment,
    a reset of [current], or [increment_completed] followed by that reset. *)
Inductive progress_step (p : Progress.t) : Progress.t -> Prop :=
| step_none : progress_step p p
| step_increment f : progress_step p (incremented f p)
| step_reset : progress_step p (reset_current p)
| step_completed_reset : progress_step p (reset_current (incremented Completed p)).

(** Wherever a counter is enabled on both sides of a [Progress], the current
    count lies between 0 and the total count. *)
Definition in_range (p : Progress.t) : Prop :=
  forall f a b,
    Tracker.get f (Progress.total p) = Some a ->
    Tracker.get f (Progress.current p) = Some b ->
    0 <= b <= a.

(** The same counters are enabled, and the attributes outside the four
    fields are the same. *)
Definition same_shape (x y : Tracker.t) : Prop :=
  (forall f, Tracker.get f x = None <-> Tracker.get f y = None)
  /\ Tracker.extra x = Tracker.extra y.

Definition progress_same_shape (p q : Progress.t) : Prop :=
  same_shape (Progress.total p) (Progress.total q)
  /\ same_shape (Progress.current p) (Progress.current q).

(** [Tracker(completed=n)] *)
Definition completed_only (n : Z) : Tracker.t :=
  Tracker.new (Some 0) (Some 0) (Some 0) (Some n).

(** ** Object identity: the heap model *)

(** [OptimizationProgress] declares its three fields with a [Progress] object
    as the default value, built once when the class body runs.  Every
    [OptimizationProgress()] refers to those same three objects, which is why
    [BatchLoopProgress.__post_init__] deep-copies each new instance.  Values
    cannot tell a copy from an alias, so this part of the program is modelled
    on a heap of objects addressed by references. *)

Inductive side := Total | Current.

Definition _side (s : side) : lens Progress.t Tracker.t :=
  match s with
  | Total => Progress._total
  | Current => Progress._current
  end.

(** What a caller holding an [OptimizationProgress] [opt] can do to its
    counters. *)
Inductive mutation :=
| MIncrement (p : part) (f : field)                         (* opt.<p>.increment_<f>() *)
| MReset (p : part) (s : side)                              (* opt.<p>.<s>.reset() *)
| MSetAttr (p : part) (s : side) (key : string) (v : option Z).  (* opt.<p>.<s>.<key> = v *)

(** The mutation on a value that owns all its parts. *)
Definition mutate_value (m : mutation) : M OptimizationProgress.t unit :=
  match m with
  | MIncrement p f => zoom (_part p) (Progress.increment f)
  | MReset p s => zoom (_part p /. _side s) Tracker.reset
  | MSetAttr p s key v => zoom (_part p /. _side s) (Tracker.__setattr__ key v)
  end.

Fixpoint mutate_values (ms : list mutation) (o : OptimizationProgress.t)
    : OptimizationProgress.t :=
  match ms with
  | [] => o
  | m :: rest => mutate_values rest (exec (mutate_value m) o)
  end.

Module Heap.

Definition loc := nat.

Inductive obj :=
| OTracker (x : Tracker.t)
| OProgress (total current : loc)
| OOptimizationProgress (optimizer scheduler zero_grad : loc).

Abbreviation heap := (list obj).

(** A new object gets the next free address. *)
Definition alloc (o : obj) : M heap loc := fun h => (Return (length h), h ++ [o]).

(** Following a reference to an object of the wrong class. *)
Definition wrong_class {A} : M heap A :=
  raise (AttributeError "object has no such attribute").

Definition get_tracker (l : loc) : M heap Tracker.t := fun h =>
  match h !! l with
  | Some (OTracker x) => (Return x, h)
  | _ => wrong_class h
  end.

Definition get_progress (l : loc) : M heap (loc * loc) := fun h =>
  match h !! l with
  | Some (OProgress a b) => (Return (a, b), h)
  | _ => wrong_class h
  end.

Definition get_optimization (l : loc) : M heap (loc * loc * loc) := fun h =>
  match h !! l with
  | Some (OOptimizationProgress o s z) => (Return (o, s, z), h)
  | _ => wrong_class h
  end.

(** Run a [Tracker] method on the tracker stored at [l]. *)
Definition at_tracker {A} (l : loc) (m : M Tracker.t A) : M heap A := fun h =>
  match h !! l with
  | Some (OTracker x) => let '(r, x') := m x in (r, <[l := OTracker x']> h)
  | _ => wrong_class h
  end.

(** *** Constructors *)

Definition Tracker_new (ready started processed completed : option Z) : M heap loc :=
  alloc (OTracker (Tracker.new ready started processed completed)).

(** [Progress.from_defaults]: two new trackers, then the [Progress]. *)
Definition Progress_from_defaults (ready started processed completed : option Z)
    : M heap loc :=
  a ← Tracker_new ready started processed completed;
  b ← Tracker_new ready started processed completed;
  alloc (OProgress a b).

(** [Progress()] *)
Definition Progress_new : M heap loc :=
  Progress_from_defaults (Some 0) (Some 0) (Some 0) (Some 0).

(** The class attributes [OptimizationProgress.optimizer], [.scheduler] and
    [.zero_grad]: references to the default objects. *)
Record class_defaults := mk_defaults {
  optimizer_default : loc;
  scheduler_default : loc;
  zero_grad_default : loc
}.

(** Running the class body of [OptimizationProgress] when the module is
    imported. *)
Definition class_body : M heap class_defaults :=
  o ← Progress_from_defaults (Some 0) (Some 0) None (Some 0);
  s ← Progress_from_defaults (Some 0) None None (Some 0);
  z ← Progress_from_defaults (Some 0) (Some 0) None (Some 0);
  mret (mk_defaults o s z).

(** The heap and the class attributes right after the import.  Addresses
    only serve as identities, so nothing is lost by letting the class body
    allocate first; whatever else the program has allocated since is the
    [rest] of the heap in the statements below. *)
Definition imported : heap := exec class_body [].
Definition defaults : class_defaults :=
  match result class_body [] with
  | Return cl => cl
  | Raise _ => mk_defaults 0%nat 0%nat 0%nat
  end.

(** [OptimizationProgress()]: the generated [__init__] stores the default
    references themselves. *)
Definition OptimizationProgress_new (cl : class_defaults) : M heap loc :=
  alloc (OOptimizationProgress (optimizer_default cl) (scheduler_default cl)
                               (zero_grad_default cl)).

(** *** [copy.deepcopy]

    The memo maps the address of an object already copied to the address
    of its copy, so that sharing inside the copied graph is kept.  The
    classes are not recursive, so one function per class is enough.
    (Python allocates the copy of an object before the copies of its
    fields; the order only changes which addresses are handed out.) *)

Definition deepcopy_tracker (l : loc) (memo : gmap loc loc)
    : M heap (loc * gmap loc loc) :=
  match memo !! l with
  | Some l' => mret (l', memo)
  | None =>
      x ← get_tracker l;
      l' ← alloc (OTracker x);
      mret (l', <[l := l']> memo)
  end.

Definition deepcopy_progress (l : loc) (memo : gmap loc loc)
    : M heap (loc * gmap loc loc) :=
  match memo !! l with
  | Some l' => mret (l', memo)
  | None =>
      '(a, b) ← get_progress l;
      '(a', memo) ← deepcopy_tracker a memo;
      '(b', memo) ← deepcopy_tracker b memo;
      l' ← alloc (OProgress a' b');
      mret (l', <[l := l']> memo)
  end.

Definition deepcopy_optimization (l : loc) (memo : gmap loc loc)
    : M heap (loc * gmap loc loc) :=
  match memo !! l with
  | Some l' => mret (l', memo)
  | None =>
      '(o, s, z) ← get_optimization l;
      '(o', memo) ← deepcopy_progress o memo;
      '(s', memo) ← deepcopy_progress s memo;
      '(z', memo) ← deepcopy_progress z memo;
      l' ← alloc (OOptimizationProgress o' s' z');
      mret (l', <[l := l']> memo)
  end.

(** [deepcopy(x)] for an [OptimizationProgress] [x] *)
Definition deepcopy (l : loc) : M heap loc :=
  '(l', _) ← deepcopy_optimization l ∅; mret l'.

(** *** class BatchLoopProgress, by reference *)

Record BatchLoopProgress := mk_batch_loop {
  batch : loc;
  optimizer_idx : option Z;
  num_optimizers : Z;
  optimizations : list loc
}.

(** [tuple(deepcopy(OptimizationProgress()) for _ in range(n))] *)
Fixpoint make_slots (cl : class_defaults) (n : nat) : M heap (list loc) :=
  match n with
  | O => mret []
  | S k =>
      fresh_one ← OptimizationProgress_new cl;
      slot ← deepcopy fresh_one;
      rest ← make_slots cl k;
      mret (slot :: rest)
  end.

(** The same generator without [deepcopy], the situation described by the
    comment in [__post_init__]. *)
Fixpoint make_slots_shared (cl : class_defaults) (n : nat) : M heap (list loc) :=
  match n with
  | O => mret []
  | S k =>
      slot ← OptimizationProgress_new cl;
      rest ← make_slots_shared cl k;
      mret (slot :: rest)
  end.

(** [BatchLoopProgress(num_optimizers=n)]: [__init__] calls the default
    factories, then [__post_init__] fills [optimizations]. *)
Definition BatchLoopProgress_new (cl : class_defaults) (n : Z)
    : M heap BatchLoopProgress :=
  b ← Progress_new;
  slots ← make_slots cl (Z.to_nat n);
  mret (mk_batch_loop b (Some 0) n slots).

(** *** Methods, by reference *)

(** [Progress.increment_<f>] on the object at [self]. *)
Definition Progress_increment (f : field) (self : loc) : M heap unit :=
  '(lt, lc) ← get_progress self;
  x ← get_tracker lt;
  y ← get_tracker lc;
  if Progress.is_None (Tracker.get f x) || Progress.is_None (Tracker.get f y)
  then mret tt
  else at_tracker lt (Tracker.iadd f 1);;
       at_tracker lc (Tracker.iadd f 1).

Definition part_of (p : part) (slot : loc) : M heap loc :=
  '(o, s, z) ← get_optimization slot;
  mret (match p with Optimizer => o | Scheduler => s | ZeroGrad => z end).

Definition side_of (s : side) (pr : loc) : M heap loc :=
  '(a, b) ← get_progress pr;
  mret (match s with Total => a | Current => b end).

Definition mutate (slot : loc) (m : mutation) : M heap unit :=
  match m with
  | MIncrement p f => pr ← part_of p slot; Progress_increment f pr
  | MReset p s =>
      pr ← part_of p slot; x ← side_of s pr; at_tracker x Tracker.reset
  | MSetAttr p s key v =>
      pr ← part_of p slot; x ← side_of s pr;
      at_tracker x (Tracker.__setattr__ key v)
  end.

Fixpoint mutates (slot : loc) (ms : list mutation) (h : heap) : heap :=
  match ms with
  | [] => h
  | m :: rest => mutates slot rest (exec (mutate slot m) h)
  end.

(** *** Reading an object graph back as a value *)

Definition read_tracker (h : heap) (l : loc) : option Tracker.t :=
  match h !! l with
  | Some (OTracker x) => Some x
  | _ => None
  end.

Definition read_progress (h : heap) (l : loc) : option Progress.t :=
  match h !! l with
  | Some (OProgress a b) =>
      x ← read_tracker h a; y ← read_tracker h b; Some (Progress.mk x y)
  | _ => None
  end.

Definition read_optimization (h : heap) (l : loc) : option OptimizationProgress.t :=
  match h !! l with
  | Some (OOptimizationProgress o s z) =>
      x ← read_progress h o; y ← read_progress h s; w ← read_progress h z;
      Some (OptimizationProgress.mk x y w)
  | _ => None
  end.

Definition read_batch_loop (h : heap) (bl : BatchLoopProgress)
    : option BatchLoopProgress.t :=
  b ← read_progress h (batch bl);
  slots ← mapM (read_optimization h) (optimizations bl);
  Some (BatchLoopProgress.mk b (optimizer_idx bl) (num_optimizers bl) slots).

(** *** Where an object graph lives

    The addresses of a [Progress] and of its two trackers, and of an
    [OptimizationProgress] and of its three [Progress] attributes. *)

#[local] Open Scope nat_scope.

Record progress_layout := mk_progress_layout {
  at_progress : loc;
  at_total : loc;
  at_current : loc
}.

Record layout := mk_layout {
  at_slot : loc;
  at_part : part -> progress_layout
}.

Definition progress_cells (P : progress_layout) : list loc :=
  [at_progress P; at_total P; at_current P].

Definition cells (L : layout) : list loc :=
  at_slot L :: progress_cells (at_part L Optimizer)
  ++ progress_cells (at_part L Scheduler)
  ++ progress_cells (at_part L ZeroGrad).

(** The heap holds a [Progress] of value [v] at the addresses of [P]. *)
Definition progress_at (h : heap) (P : progress_layout) (v : Progress.t) : Prop :=
  h !! at_progress P = Some (OProgress (at_total P) (at_current P))
  /\ h !! at_total P = Some (OTracker (Progress.total v))
  /\ h !! at_current P = Some (OTracker (Progress.current v)).

(** The heap holds an [OptimizationProgress] of value [o] at the addresses
    of [L]. *)
Definition holds (h : heap) (L : layout) (o : OptimizationProgress.t) : Prop :=
  h !! at_slot L =
    Some (OOptimizationProgress (at_progress (at_part L Optimizer))
                                (at_progress (at_part L Scheduler))
                                (at_progress (at_part L ZeroGrad)))
  /\ forall p, progress_at h (at_part L p) (view (_part p) o).

(** The two heaps have the same size and the same objects at every address
    outside [ls]. *)
Definition same_outside (ls : list loc) (h h' : heap) : Prop :=
  length h' = length h /\ forall l, l ∉ ls -> h' !! l = h !! l.

(** The objects [deepcopy] appends for a [Progress] of value [v], and the
    addresses they get when the heap had [b] objects. *)
Definition progress_copy (b : nat) (v : Progress.t) : list obj :=
  [OTracker (Progress.total v); OTracker (Progress.current v);
   OProgress b (b + 1)].

Definition progress_copy_layout (b : nat) : progress_layout :=
  mk_progress_layout (b + 2) b (b + 1).

(** The same for an [OptimizationProgress] of value [o]: its three
    [Progress] attributes in turn, then the object itself. *)
Definition optimization_copy (b : nat) (o : OptimizationProgress.t) : list obj :=
  [OTracker (Progress.total (OptimizationProgress.optimizer o));
   OTracker (Progress.current (OptimizationProgress.optimizer o));
   OProgress b (b + 1);
   OTracker (Progress.total (OptimizationProgress.scheduler o));
   OTracker (Progress.current (OptimizationProgress.scheduler o));
   OProgress (b + 3) (b + 4);
   OTracker (Progress.total (OptimizationProgress.zero_grad o));
   OTracker (Progress.current (OptimizationProgress.zero_grad o));
   OProgress (b + 6) (b + 7);
   OOptimizationProgress (b + 2) (b + 5) (b + 8)].

Definition copy_layout (b : nat) : layout :=
  mk_layout (b + 9)
    (fun p =>
       match p with
       | Optimizer => mk_progress_layout (b + 2) b (b + 1)
       | Scheduler => mk_progress_layout (b + 5) (b + 3) (b + 4)
       | ZeroGrad => mk_progress_layout (b + 8) (b + 6) (b + 7)
       end).

(** The addresses of the class-level default objects. *)
Definition default_part (p : part) : progress_layout :=
  match p with
  | Optimizer => mk_progress_layout 2 0 1
  | Scheduler => mk_progress_layout 5 3 4
  | ZeroGrad => mk_progress_layout 8 6 7
  end.

(** Nobody has mutated the class-level defaults. *)
Definition defaults_intact (h : heap) : Prop :=
  forall p, progress_at h (default_part p) (view (_part p) OptimizationProgress.fresh).

(** The address of the tracker on side [s] of a [Progress]. *)
Definition at_side (s : side) (P : progress_layout) : loc :=
  match s with
  | Total => at_total P
  | Current => at_current P
  end.

(** The slot addresses handed out by [make_slots] on a heap of [b] objects:
    each round allocates the instance to copy at [b] and then the ten
    objects of the copy, the last of which is the slot. *)
Fixpoint slot_addrs (b n : nat) : list loc :=
  match n with
  | O => []
  | S k => (b + 10) :: slot_addrs (b + 11) k
  end.

(** *** Further methods and vocabulary, by reference *)

(** The class-level defaults hold the value [d]: what [defaults_intact]
    says for [OptimizationProgress.fresh], for any value. *)
Definition defaults_hold (h : heap) (d : OptimizationProgress.t) : Prop :=
  forall p, progress_at h (default_part p) (view (_part p) d).

(** [for x in xs: body(x)] over a tuple of references. *)
Fixpoint for_each_loc (body : loc -> M heap unit) (ls : list loc) : M heap unit :=
  match ls with
  | [] => mret tt
  | l :: rest => body l;; for_each_loc body rest
  end.

(** The body of the loop of [reset_on_batch], on the slot [opt]. *)
Definition reset_slot (opt : loc) : M heap unit :=
  mutate opt (MReset Optimizer Current);;
  mutate opt (MReset Scheduler Current);;
  mutate opt (MReset ZeroGrad Current).

(** [BatchLoopProgress.reset_on_batch] *)
Definition reset_on_batch (self : BatchLoopProgress) : M heap unit :=
  for_each_loc reset_slot (optimizations self);;
  x ← side_of Current (batch self);
  at_tracker x Tracker.reset.

(** A sequence of [increment_<f>] calls on the [Progress] at [self]. *)
Fixpoint Progress_increments (fs : list field) (self : loc) : M heap unit :=
  match fs with
  | [] => mret tt
  | f :: rest => Progress_increment f self;; Progress_increments rest self
  end.

(** The layouts of the slots made by [make_slots] on a heap of [b]
    objects. *)
Fixpoint slot_layouts (b n : nat) : list layout :=
  match n with
  | O => []
  | S k => copy_layout (b + 1) :: slot_layouts (b + 11) k
  end.

(** The heap holds a [BatchLoopProgress] of value [v]: its [batch] at the
    addresses of [Pb], its slots at those of [Ls], and no object is used
    twice. *)
Definition batch_loop_at (h : heap) (bl : BatchLoopProgress)
    (Pb : progress_layout) (Ls : list layout) (v : BatchLoopProgress.t) : Prop :=
  batch bl = at_progress Pb
  /\ optimizations bl = map at_slot Ls
  /\ optimizer_idx bl = BatchLoopProgress.optimizer_idx v
  /\ num_optimizers bl = BatchLoopProgress.num_optimizers v
  /\ progress_at h Pb (BatchLoopProgress.batch v)
  /\ Forall2 (holds h) Ls (BatchLoopProgress.optimizations v)
  /\ NoDup (progress_cells Pb ++ flat_map cells Ls).

End Heap.

(** ** overrides/fairscale.py *)

Module Fairscale.

(** The classes the two functions test for with [isinstance]; any other
    wrapper class (such as the [_LightningModuleWrapperBase] subclasses)
    is an [OtherWrapper]. *)
Inductive wrapper :=
| ShardedDataParallel
| FullyShardedDataParallel
| FlattenParamsWrapper
| OtherWrapper (cls : string).

#[global] Instance wrapper_eq_dec : EqDecision wrapper.
Proof. solve_decision. Defined.

(** A model object: a module of the user, or a wrapper with its [module]
    attribute. *)
Inductive model :=
| Plain (name : string)
| Wrapped (w : wrapper) (module : model).

Definition isinstance (m : model) (w : wrapper) : bool :=
  match m with
  | Wrapped w' _ => bool_decide (w' = w)
  | Plain _ => false
  end.

(** [if isinstance(model, w): model = model.module] *)
Definition strip (w : wrapper) (m : model) : model :=
  match m with
  | Wrapped w' inner => if isinstance m w then inner else m
  | Plain _ => m
  end.

Section Unwrap.

(** [pytorch_lightning.overrides.base.unwrap_lightning_module], imported
    by the source file and defined outside it: a parameter. *)
Variable unwrap_lightning_module : model -> model.

Definition unwrap_lightning_module_sharded (wrapped_model : model) : model :=
  let model := wrapped_model in
  let model := strip ShardedDataParallel model in
  unwrap_lightning_module model.

Definition unwrap_lightning_module_full_sharded (wrapped_model : model) : model :=
  let model := wrapped_model in
  let model := strip FullyShardedDataParallel model in
  let model := strip FlattenParamsWrapper model in
  unwrap_lightning_module model.

End Unwrap.

(** The single [unwrap] of the specification, in its words: the sharded
    wrapper first, then the fully-sharded one, then the flattened-parameters
    one, and the innermost model is returned. *)
Definition spec_unwrap (m : model) : model :=
  strip FlattenParamsWrapper (strip FullyShardedDataParallel
    (strip ShardedDataParallel m)).

(** No wrapper class known to the two functions is present on top. *)
Definition no_known_wrapper (m : model) : Prop :=
  isinstance m ShardedDataParallel = false /\
  isinstance m FullyShardedDataParallel = false /\
  isinstance m FlattenParamsWrapper = false.

Definition user_model : model := Plain "LightningModule".

(** [FullyShardedDataParallel(FlattenParamsWrapper(user_model))] *)
Definition fully_sharded_example : model :=
  Wrapped FullyShardedDataParallel (Wrapped FlattenParamsWrapper user_model).

(** [ShardedDataParallel(user_model)] *)
Definition sharded_example : model := Wrapped ShardedDataParallel user_model.

(** [k] wrappers of class [w] around [m]. *)
Fixpoint nest (w : wrapper) (k : nat) (m : model) : model :=
  match k with
  | O => m
  | S j => Wrapped w (nest w j m)
  end.

(** [m] without its [j] outermost wrappers, of whatever class. *)
Fixpoint peel (j : nat) (m : model) : model :=
  match j, m with
  | S i, Wrapped _ inner => peel i inner
  | _, _ => m
  end.

End Fairscale.

(** * Properties *)

(** ** Running the monad *)

Lemma bind_return {S A B} (m : M S A) (k : A -> M S B) s a s' :
  m s = (Return a, s') -> (m ≫= k) s = k a s'.
Proof. intros H. unfold mbind, M_bind. now rewrite H. Qed.

Lemma bind_raise {S A B} (m : M S A) (k : A -> M S B) s e s' :
  m s = (Raise e, s') -> (m ≫= k) s = (Raise e, s').
Proof. intros H. unfold mbind, M_bind. now rewrite H. Qed.

Lemma zoom_run {S T A} (l : lens S T) (m : M T A) s r x :
  m (view l s) = (r, x) -> zoom l m s = (r, put l x s).
Proof. intros H. unfold zoom. now rewrite H. Qed.

Lemma for_each_map {A} (body : M A unit) (f : A -> A) :
  (forall x, body x = (Return tt, f x)) ->
  forall xs, for_each body xs = (Return tt, map f xs).
Proof.
  intros Hbody xs. induction xs as [|x rest IH]; simpl.
  - reflexivity.
  - now rewrite Hbody, IH.
Qed.

(** ** Tracker *)

Lemma field_of_name_name f : field_of_name (field_name f) = Some f.
Proof. now destruct f. Qed.

Lemma get_set_same f v x : Tracker.get f (Tracker.set f v x) = v.
Proof. now destruct f. Qed.

Lemma get_set_other f g v x : f <> g -> Tracker.get g (Tracker.set f v x) = Tracker.get g x.
Proof. now destruct f, g. Qed.

Lemma extra_set f v x : Tracker.extra (Tracker.set f v x) = Tracker.extra x.
Proof. now destruct f. Qed.

Lemma descriptor_of_name_field f : Tracker.descriptor_of_name (field_name f) = None.
Proof. now destruct f. Qed.

(** For a field the guard looks at the value the instance holds. *)
Lemma getattr_is_None_field f x :
  Tracker.getattr_is_None x (field_name f) = bool_decide (Tracker.get f x = None).
Proof.
  unfold Tracker.getattr_is_None, Tracker.lookup_attr.
  now rewrite descriptor_of_name_field, field_of_name_name.
Qed.

(** The guard of [__setattr__], then [object.__setattr__]. *)
Lemma setattr_run key v x :
  Tracker.__setattr__ key v x =
    if Tracker.getattr_is_None x key
    then (Raise (AttributeError (Tracker.unused_msg key)), x)
    else Tracker.object_setattr key v x.
Proof.
  unfold Tracker.__setattr__, mbind, M_bind, gets.
  now destruct (Tracker.getattr_is_None x key).
Qed.

Lemma object_setattr_plain key v x :
  Tracker.descriptor_of_name key = None ->
  Tracker.object_setattr key v x = (Return tt, Tracker.store key v x).
Proof. intros H. unfold Tracker.object_setattr. now rewrite H. Qed.

Lemma object_setattr_descriptor key v x :
  Tracker.descriptor_of_name key <> None ->
  exists e, Tracker.object_setattr key v x = (Raise e, x).
Proof.
  intros H. unfold Tracker.object_setattr.
  destruct (Tracker.descriptor_of_name key) as [[]|];
    [eexists; reflexivity..|congruence].
Qed.

(** An assignment either stores the value or raises and changes nothing. *)
Lemma setattr_cases key v x :
  (Tracker.getattr_is_None x key = false /\
   Tracker.descriptor_of_name key = None /\
   Tracker.__setattr__ key v x = (Return tt, Tracker.store key v x))
  \/ ((Tracker.getattr_is_None x key = true \/
       Tracker.descriptor_of_name key <> None) /\
      exists e, Tracker.__setattr__ key v x = (Raise e, x)).
Proof.
  rewrite setattr_run.
  destruct (Tracker.getattr_is_None x key) eqn:G.
  - right. split; [now left|]. eexists. reflexivity.
  - destruct (Tracker.descriptor_of_name key) as [d|] eqn:D.
    + right. split; [right; discriminate|].
      apply object_setattr_descriptor. rewrite D. discriminate.
    + left. repeat split. now apply object_setattr_plain.
Qed.

Lemma setattr_enabled f v x z :
  Tracker.get f x = Some z ->
  Tracker.__setattr__ (field_name f) v x = (Return tt, Tracker.set f v x).
Proof.
  intros H. rewrite setattr_run, getattr_is_None_field, H.
  rewrite bool_decide_eq_false_2 by discriminate.
  rewrite object_setattr_plain by apply descriptor_of_name_field.
  unfold Tracker.store. now rewrite field_of_name_name.
Qed.

Lemma setattr_disabled f v x :
  Tracker.get f x = None ->
  Tracker.__setattr__ (field_name f) v x =
    (Raise (AttributeError (Tracker.unused_msg (field_name f))), x).
Proof.
  intros H. rewrite setattr_run, getattr_is_None_field, H.
  now rewrite bool_decide_eq_true_2.
Qed.

Lemma iadd_enabled f n x z :
  Tracker.get f x = Some z ->
  Tracker.iadd f n x = (Return tt, Tracker.set f (Some (z + n)) x).
Proof.
  intros H. unfold Tracker.iadd.
  erewrite bind_return by (unfold gets; reflexivity).
  rewrite H. now apply setattr_enabled with z.
Qed.

(** [reset] never raises and computes [reset_tracker]. *)
Lemma reset_run x : Tracker.reset x = (Return tt, reset_tracker x).
Proof.
  destruct x as [[r|] [s|] [p|] [c|] e]; reflexivity.
Qed.

Lemma reset_tracker_get f x :
  Tracker.get f (reset_tracker x) = zeroed (Tracker.get f x).
Proof. now destruct f. Qed.

(** ** Progress *)

(** The four [increment_<f>] methods never raise and compute [incremented]. *)
Lemma increment_run f p : Progress.increment f p = (Return tt, incremented f p).
Proof.
  destruct p as [[r1 s1 p1 c1 e1] [r2 s2 p2 c2 e2]].
  destruct f; unfold incremented; simpl.
  - destruct r1, r2; reflexivity.
  - destruct s1, s2; reflexivity.
  - destruct p1, p2; reflexivity.
  - destruct c1, c2; reflexivity.
Qed.

Lemma incremented_enabled f p a b :
  Tracker.get f (Progress.total p) = Some a ->
  Tracker.get f (Progress.current p) = Some b ->
  incremented f p =
    Progress.mk (Tracker.set f (Some (a + 1)) (Progress.total p))
                (Tracker.set f (Some (b + 1)) (Progress.current p)).
Proof. intros Ha Hb. unfold incremented. now rewrite Ha, Hb. Qed.

Lemma incremented_disabled f p :
  Tracker.get f (Progress.total p) = None \/ Tracker.get f (Progress.current p) = None ->
  incremented f p = p.
Proof.
  unfold incremented. intros [H|H]; rewrite H; [reflexivity|].
  now destruct (Tracker.get f (Progress.total p)).
Qed.

Lemma calls_increment_disabled f p n :
  incremented f p = p -> calls n (Progress.increment f) p = (Return tt, p).
Proof.
  intros H. induction n as [|n IH]; simpl; [reflexivity|].
  erewrite bind_return by apply increment_run. now rewrite H.
Qed.

Lemma calls_increment_enabled f n : forall p a b,
  Tracker.get f (Progress.total p) = Some a ->
  Tracker.get f (Progress.current p) = Some b ->
  exists p', calls n (Progress.increment f) p = (Return tt, p') /\
    Tracker.get f (Progress.total p') = Some (a + Z.of_nat n) /\
    Tracker.get f (Progress.current p') = Some (b + Z.of_nat n).
Proof.
  induction n as [|n IH]; intros p a b Ha Hb.
  - exists p. simpl. rewrite !Z.add_0_r. now repeat split.
  - destruct (IH (incremented f p) (a + 1) (b + 1)) as (p' & Hrun & Ht & Hc).
    + rewrite (incremented_enabled f p a b Ha Hb). apply get_set_same.
    + rewrite (incremented_enabled f p a b Ha Hb). apply get_set_same.
    + exists p'. split; [|split].
      * cbn [calls]. erewrite bind_return by apply increment_run. exact Hrun.
      * rewrite Ht. f_equal. lia.
      * rewrite Hc. f_equal. lia.
Qed.

(** C1.  For every [Progress] [P] and field [F]: when [F] is enabled on both
    [P.total] and [P.current], [increment_F()] returns normally, raises each
    of the two counters by exactly 1 and changes no other field; [n] calls on
    a fresh [Progress()] leave [n] in both counters; when [F] is disabled on
    [P.total] or on [P.current], any number of calls returns normally and
    leaves the whole [Progress] unchanged. *)
Theorem increment_spec (F : field) (P : Progress.t) :
  (forall a b,
     Tracker.get F (Progress.total P) = Some a ->
     Tracker.get F (Progress.current P) = Some b ->
     result (Progress.increment F) P = Return tt /\
     let P' := exec (Progress.increment F) P in
     Tracker.get F (Progress.total P') = Some (a + 1) /\
     Tracker.get F (Progress.current P') = Some (b + 1) /\
     (forall G, G <> F ->
        Tracker.get G (Progress.total P') = Tracker.get G (Progress.total P) /\
        Tracker.get G (Progress.current P') = Tracker.get G (Progress.current P)) /\
     Tracker.extra (Progress.total P') = Tracker.extra (Progress.total P) /\
     Tracker.extra (Progress.current P') = Tracker.extra (Progress.current P))
  /\ (forall n : nat,
        result (calls n (Progress.increment F)) Progress.fresh = Return tt /\
        let Pn := exec (calls n (Progress.increment F)) Progress.fresh in
        Tracker.get F (Progress.total Pn) = Some (Z.of_nat n) /\
        Tracker.get F (Progress.current Pn) = Some (Z.of_nat n))
  /\ (Tracker.get F (Progress.total P) = None \/
      Tracker.get F (Progress.current P) = None ->
      forall n : nat, calls n (Progress.increment F) P = (Return tt, P)).
Proof.
  split; [|split].
  - intros a b Ha Hb. unfold result, exec. rewrite increment_run.
    rewrite (incremented_enabled F P a b Ha Hb). cbn [fst snd Progress.total Progress.current].
    rewrite !get_set_same, !extra_set. repeat split; try reflexivity.
    + apply get_set_other. congruence.
    + apply get_set_other. congruence.
  - intros n.
    destruct (calls_increment_enabled F n Progress.fresh 0 0) as (p' & Hrun & Ht & Hc);
      [now destruct F | now destruct F |].
    unfold result, exec. rewrite Hrun. cbn [fst snd]. now rewrite Ht, Hc.
  - intros H n. apply calls_increment_disabled. now apply incremented_disabled.
Qed.

Lemma increment_spec_witness :
  Tracker.get Ready (Progress.total (exec (Progress.increment Ready) Progress.fresh)) = Some 1
  /\ calls 3 (Progress.increment Processed) OptimizationProgress.fresh.(OptimizationProgress.optimizer)
     = (Return tt, OptimizationProgress.fresh.(OptimizationProgress.optimizer)).
Proof.
  split.
  - destruct (increment_spec Ready Progress.fresh) as [H _].
    destruct (H 0 0 eq_refl eq_refl) as (_ & Ht & _). exact Ht.
  - destruct (increment_spec Processed
                OptimizationProgress.fresh.(OptimizationProgress.optimizer)) as (_ & _ & H).
    apply H. left. reflexivity.
Defined.

(** ** Writing to a tracker *)

Lemma field_of_name_Some key g : field_of_name key = Some g -> key = field_name g.
Proof.
  unfold field_of_name. intros Heq.
  repeat case_decide; try discriminate; injection Heq as <-; assumption.
Qed.

Lemma store_other key v x F :
  key <> field_name F ->
  Tracker.get F (Tracker.store key v x) = Tracker.get F x.
Proof.
  intros Hne. unfold Tracker.store.
  destruct (field_of_name key) as [g|] eqn:E.
  - apply field_of_name_Some in E. apply get_set_other. congruence.
  - now destruct F.
Qed.

(** No call re-enables a disabled field. *)
Lemma disabled_stays_disabled F c x :
  Tracker.get F x = None -> Tracker.get F (exec (run_tracker_call c) x) = None.
Proof.
  intros H. unfold exec. destruct c as [key v| |f n]; cbn [run_tracker_call].
  - destruct (setattr_cases key v x) as [(Hg & _ & ->)|(_ & e & ->)];
      cbn [snd]; [|assumption].
    rewrite store_other; [assumption|].
    intros ->. rewrite getattr_is_None_field, H in Hg.
    now rewrite bool_decide_eq_true_2 in Hg.
  - rewrite reset_run. cbn [snd]. now rewrite reset_tracker_get, H.
  - unfold Tracker.iadd. unfold mbind, M_bind, gets.
    destruct (Tracker.get f x) as [z|] eqn:E; [|assumption].
    rewrite (setattr_enabled f _ x z E). cbn [snd].
    rewrite get_set_other; [assumption|congruence].
Qed.

Lemma disabled_for_life F cs : forall x,
  Tracker.get F x = None -> Tracker.get F (run_tracker_calls cs x) = None.
Proof.
  induction cs as [|c rest IH]; intros x H; cbn [run_tracker_calls]; [assumption|].
  now apply IH, disabled_stays_disabled.
Qed.

(** C2.  For a tracker [T] as constructed and a field [F]: when [F] was
    disabled at construction, assigning any value [v] to [T.F] raises the
    "meant to be unused" [AttributeError] and leaves [T] as it was, and it
    still does so after any sequence of assignments, resets and additions
    made to [T] in between; when [F] was enabled at construction, the
    assignment returns normally and [T.F] holds [v] afterwards, the rest of
    [T] being what it was. *)
Theorem setattr_constructed (ready started processed completed : option Z)
    (F : field) (v : option Z) :
  let T := Tracker.new ready started processed completed in
  (Tracker.get F T = None ->
     Tracker.__setattr__ (field_name F) v T =
       (Raise (AttributeError (Tracker.unused_msg (field_name F))), T)
     /\ forall cs,
          let T' := run_tracker_calls cs T in
          Tracker.__setattr__ (field_name F) v T' =
            (Raise (AttributeError (Tracker.unused_msg (field_name F))), T'))
  /\ (Tracker.get F T <> None ->
        Tracker.__setattr__ (field_name F) v T = (Return tt, Tracker.set F v T) /\
        Tracker.get F (Tracker.set F v T) = v /\
        (forall G, G <> F -> Tracker.get G (Tracker.set F v T) = Tracker.get G T) /\
        Tracker.extra (Tracker.set F v T) = Tracker.extra T).
Proof.
  intros T. split.
  - intros H. split; [now apply setattr_disabled|].
    intros cs T'. apply setattr_disabled. now apply disabled_for_life.
  - intros H. destruct (Tracker.get F T) as [z|] eqn:E; [|congruence].
    split; [now apply setattr_enabled with z|].
    split; [apply get_set_same|].
    split; [|apply extra_set].
    intros G HG. apply get_set_other. congruence.
Qed.

Lemma setattr_constructed_witness :
  Tracker.__setattr__ "completed" (Some 10) (Tracker.new (Some 10) (Some 0) (Some 0) None)
    = (Raise (AttributeError "The 'completed' attribute is meant to be unused"),
       Tracker.new (Some 10) (Some 0) (Some 0) None)
  /\ Tracker.__setattr__ "completed" (Some 10)
       (run_tracker_calls [ResetAll; Assign "ready" (Some 3); AddTo Started 2]
          (Tracker.new (Some 10) (Some 0) (Some 0) None))
    = (Raise (AttributeError "The 'completed' attribute is meant to be unused"),
       Tracker.new (Some 3) (Some 2) (Some 0) None)
  /\ Tracker.__setattr__ "ready" (Some 7) (Tracker.new (Some 10) (Some 0) (Some 0) None)
    = (Return tt, Tracker.new (Some 7) (Some 0) (Some 0) None).
Proof.
  destruct (setattr_constructed (Some 10) (Some 0) (Some 0) None Completed (Some 10))
    as [Hdisabled _].
  destruct (Hdisabled eq_refl) as [Hnow Hlater].
  split; [exact Hnow|]. split.
  - exact (Hlater [ResetAll; Assign "ready" (Some 3); AddTo Started 2]).
  - apply (proj2 (setattr_constructed (Some 10) (Some 0) (Some 0) None Ready (Some 7))).
    discriminate.
Defined.

(** C10.  The guard of [__setattr__] rejects a write, with the "meant to
    be unused" [AttributeError], exactly when the attribute currently reads
    [None], and the tracker is then left as it was.  For an attribute that
    the instance holds, a field above all, the write raises if and only if
    the value held is [None].  So [None] can be written to an enabled
    field, which disables it: whatever is done to the tracker afterwards,
    every later write to the field raises and changes nothing.  A write to
    a name that the instance does not have yet succeeds and creates the
    attribute.  The names that every tracker has through its class are not
    new names: [__hash__] and [__weakref__] read [None], so the guard
    rejects a write to them as well, and [object] refuses an int or [None]
    for [__class__] and [__dict__]; there too the tracker is left as it
    was. *)
Theorem setattr_guard (T : Tracker.t) (key : string) (v : option Z) :
  (result (Tracker.__setattr__ key v) T
     = Raise (AttributeError (Tracker.unused_msg key))
   <-> Tracker.getattr_is_None T key = true)
  /\ (Tracker.getattr_is_None T key = true ->
        Tracker.__setattr__ key v T =
          (Raise (AttributeError (Tracker.unused_msg key)), T))
  /\ (forall cur,
        Tracker.descriptor_of_name key = None ->
        Tracker.lookup_attr T key = Some cur ->
        (raises (result (Tracker.__setattr__ key v) T) <-> cur = None))
  /\ (forall F,
        key = field_name F ->
        (raises (result (Tracker.__setattr__ key v) T) <-> Tracker.get F T = None))
  /\ (forall F z,
        key = field_name F -> Tracker.get F T = Some z ->
        Tracker.__setattr__ key None T = (Return tt, Tracker.set F None T) /\
        forall cs w,
          let T' := run_tracker_calls cs (Tracker.set F None T) in
          Tracker.__setattr__ key w T' =
            (Raise (AttributeError (Tracker.unused_msg key)), T'))
  /\ (Tracker.lookup_attr T key = None ->
      Tracker.descriptor_of_name key = None ->
      key <> "__hash__" ->
        Tracker.__setattr__ key v T = (Return tt, Tracker.store key v T) /\
        Tracker.lookup_attr (Tracker.store key v T) key = Some v)
  /\ (key = "__weakref__" \/ (key = "__hash__" /\ Tracker.lookup_attr T key = None) ->
        Tracker.__setattr__ key v T =
          (Raise (AttributeError (Tracker.unused_msg key)), T))
  /\ (key = "__class__" \/ key = "__dict__" ->
        exists msg, Tracker.__setattr__ key v T = (Raise (TypeError msg), T)).
Proof.
  assert (forall cur,
            Tracker.descriptor_of_name key = None ->
            Tracker.lookup_attr T key = Some cur ->
            (raises (result (Tracker.__setattr__ key v) T) <-> cur = None)) as Hheld.
  { intros cur D L. unfold result. rewrite setattr_run.
    unfold Tracker.getattr_is_None. rewrite D, L.
    destruct cur as [z|].
    - rewrite bool_decide_eq_false_2 by discriminate.
      rewrite object_setattr_plain by assumption. cbn [fst].
      split; [intros [e He]|]; discriminate.
    - rewrite bool_decide_eq_true_2 by reflexivity. cbn [fst].
      split; [reflexivity|]. intros _. eexists. reflexivity. }
  split; [|split; [|split; [exact Hheld|split; [|split; [|split; [|split]]]]]].
  - unfold result. rewrite setattr_run.
    destruct (Tracker.getattr_is_None T key) eqn:G; [now split|].
    split; [|discriminate]. intros He. exfalso. revert G He.
    unfold Tracker.getattr_is_None, Tracker.object_setattr.
    destruct (Tracker.descriptor_of_name key) as [[]|]; cbn; discriminate.
  - intros G. now rewrite setattr_run, G.
  - intros F ->. apply Hheld; [apply descriptor_of_name_field|].
    unfold Tracker.lookup_attr. now rewrite field_of_name_name.
  - intros F z -> E. split; [now apply setattr_enabled with z|].
    intros cs w T'. apply setattr_disabled.
    apply disabled_for_life, get_set_same.
  - intros L D Hh. rewrite setattr_run. unfold Tracker.getattr_is_None.
    rewrite D, L, bool_decide_eq_false_2 by assumption.
    split; [now apply object_setattr_plain|].
    revert L. unfold Tracker.lookup_attr, Tracker.store.
    destruct (field_of_name key); [discriminate|]. cbn. intros _.
    apply lookup_insert_eq.
  - intros [->|[-> L]]; rewrite setattr_run; unfold Tracker.getattr_is_None.
    + reflexivity.
    + change (Tracker.descriptor_of_name "__hash__") with (@None Tracker.descriptor).
      cbv beta iota. now rewrite L.
  - intros [->| ->]; rewrite setattr_run; unfold Tracker.getattr_is_None;
      cbn; eexists; reflexivity.
Qed.

Lemma setattr_guard_witness :
  Tracker.__setattr__ "completed" None Tracker.fresh
    = (Return tt, Tracker.new (Some 0) (Some 0) (Some 0) None)
  /\ Tracker.__setattr__ "completed" (Some 10) (Tracker.new (Some 0) (Some 0) (Some 0) None)
    = (Raise (AttributeError "The 'completed' attribute is meant to be unused"),
       Tracker.new (Some 0) (Some 0) (Some 0) None)
  /\ result (Tracker.__setattr__ "non_existing_attr" (Some 10)) Tracker.fresh = Return tt
  /\ Tracker.__setattr__ "__hash__" (Some 10) Tracker.fresh
    = (Raise (AttributeError "The '__hash__' attribute is meant to be unused"),
       Tracker.fresh)
  /\ (raises (result (Tracker.__setattr__ "ready" (Some 1)) (Tracker.new None (Some 0) (Some 0) (Some 0)))
      <-> Tracker.get Ready (Tracker.new None (Some 0) (Some 0) (Some 0)) = None).
Proof.
  destruct (setattr_guard Tracker.fresh "completed" None) as (_ & _ & _ & _ & H & _).
  destruct (H Completed 0 eq_refl eq_refl) as [H1 H2].
  split; [exact H1|]. split; [exact (H2 [] (Some 10))|]. split; [|split].
  - destruct (setattr_guard Tracker.fresh "non_existing_attr" (Some 10))
      as (_ & _ & _ & _ & _ & H' & _).
    destruct H' as [H3 _]; [reflexivity|reflexivity|discriminate|].
    unfold result. now rewrite H3.
  - destruct (setattr_guard Tracker.fresh "__hash__" (Some 10))
      as (_ & _ & _ & _ & _ & _ & H' & _).
    apply H'. right. split; reflexivity.
  - destruct (setattr_guard (Tracker.new None (Some 0) (Some 0) (Some 0)) "ready" (Some 1))
      as (_ & _ & _ & H' & _).
    exact (H' Ready eq_refl).
Defined.

(** ** Resetting a tracker *)

(** C3.  [reset()] returns normally, sets every enabled field to 0, leaves
    every disabled field disabled and touches nothing else; on
    [Tracker(ready=1, started=2, completed=None)] it yields a tracker equal
    to [Tracker(ready=0, started=0, completed=None)]. *)
Theorem reset_spec (T : Tracker.t) :
  result Tracker.reset T = Return tt
  /\ (forall F,
        Tracker.get F (exec Tracker.reset T) =
          match Tracker.get F T with
          | Some _ => Some 0
          | None => None
          end)
  /\ Tracker.extra (exec Tracker.reset T) = Tracker.extra T
  /\ exec Tracker.reset (Tracker.new (Some 1) (Some 2) (Some 0) None)
       = Tracker.new (Some 0) (Some 0) (Some 0) None
  /\ Tracker.eqb (exec Tracker.reset (Tracker.new (Some 1) (Some 2) (Some 0) None))
                 (Tracker.new (Some 0) (Some 0) (Some 0) None) = true.
Proof.
  unfold result, exec. rewrite reset_run. cbn [fst snd].
  split; [reflexivity|]. split; [|split; [reflexivity|split; reflexivity]].
  intros F. apply reset_tracker_get.
Qed.

(** ** The derived step counts *)

(** C4, as the specification has it, fails: with [completed] disabled on
    [optimizer.total], reading [optimizer_steps] raises nothing; it returns
    [None]. *)
Lemma steps_disabled_do_not_raise :
  Tracker.completed (Progress.total (OptimizationProgress.optimizer steps_disabled_example)) = None
  /\ result OptimizationProgress.optimizer_steps steps_disabled_example = Return None
  /\ ~ raises (result OptimizationProgress.optimizer_steps steps_disabled_example)
  /\ Tracker.completed (Progress.total (OptimizationProgress.scheduler steps_disabled_example)) = None
  /\ result OptimizationProgress.scheduler_steps steps_disabled_example = Return None
  /\ ~ raises (result OptimizationProgress.scheduler_steps steps_disabled_example).
Proof.
  repeat split; try reflexivity; intros [e He]; discriminate He.
Qed.

(** C4, amended.  [optimizer_steps] and [scheduler_steps] never raise and
    never change the object: they return whatever [optimizer.total.completed]
    and [scheduler.total.completed] hold, the count when [completed] is
    enabled and [None] when it is disabled. *)
Theorem steps_spec (o : OptimizationProgress.t) :
  OptimizationProgress.optimizer_steps o =
    (Return (Tracker.completed (Progress.total (OptimizationProgress.optimizer o))), o)
  /\ OptimizationProgress.scheduler_steps o =
    (Return (Tracker.completed (Progress.total (OptimizationProgress.scheduler o))), o).
Proof. split; reflexivity. Qed.

(** ** Resets at the loop level *)

Lemma zoom_current_reset {S} (l : lens S Progress.t) s :
  zoom (l /. Progress._current) Tracker.reset s =
    (Return tt, put l (reset_current (view l s)) s).
Proof. unfold zoom; cbn. now rewrite reset_run. Qed.

Lemma reset_slot_run o :
  BatchLoopProgress.reset_slot o = (Return tt, reset_slot_currents o).
Proof.
  unfold BatchLoopProgress.reset_slot.
  erewrite bind_return by apply zoom_current_reset.
  erewrite bind_return by apply zoom_current_reset.
  rewrite zoom_current_reset. reflexivity.
Qed.

Lemma for_each_reset_slot xs :
  for_each BatchLoopProgress.reset_slot xs = (Return tt, map reset_slot_currents xs).
Proof. apply for_each_map, reset_slot_run. Qed.

Lemma batch_loop_reset_on_batch_run bl :
  BatchLoopProgress.reset_on_batch bl =
    (Return tt,
     BatchLoopProgress.mk
       (reset_current (BatchLoopProgress.batch bl))
       (BatchLoopProgress.optimizer_idx bl)
       (BatchLoopProgress.num_optimizers bl)
       (map reset_slot_currents (BatchLoopProgress.optimizations bl))).
Proof.
  unfold BatchLoopProgress.reset_on_batch.
  erewrite bind_return by (apply zoom_run, for_each_reset_slot).
  rewrite zoom_current_reset. reflexivity.
Qed.

Lemma training_reset_on_batch_run tr :
  TrainingLoopProgress.reset_on_batch tr =
    (Return tt,
     TrainingLoopProgress.mk
       (TrainingLoopProgress.epoch tr)
       (TrainingLoopProgress.batch tr)
       (BatchLoopProgress.mk
          (BatchLoopProgress.batch (TrainingLoopProgress.batch_loop tr))
          (BatchLoopProgress.optimizer_idx (TrainingLoopProgress.batch_loop tr))
          (BatchLoopProgress.num_optimizers (TrainingLoopProgress.batch_loop tr))
          (map reset_slot_currents
               (BatchLoopProgress.optimizations (TrainingLoopProgress.batch_loop tr))))).
Proof.
  unfold TrainingLoopProgress.reset_on_batch.
  erewrite zoom_run by apply for_each_reset_slot. reflexivity.
Qed.

Lemma training_reset_on_epoch_run tr :
  TrainingLoopProgress.reset_on_epoch tr =
    (Return tt,
     TrainingLoopProgress.mk
       (TrainingLoopProgress.epoch tr)
       (TrainingLoopProgress.batch tr)
       (exec BatchLoopProgress.reset_on_batch (TrainingLoopProgress.batch_loop tr))).
Proof.
  unfold TrainingLoopProgress.reset_on_epoch, exec.
  rewrite batch_loop_reset_on_batch_run.
  erewrite zoom_run by apply batch_loop_reset_on_batch_run. reflexivity.
Qed.

Lemma training_increment_epoch_completed_run tr :
  TrainingLoopProgress.increment_epoch_completed tr =
    (Return tt,
     TrainingLoopProgress.mk
       (incremented Completed (TrainingLoopProgress.epoch tr))
       (TrainingLoopProgress.batch tr)
       (exec BatchLoopProgress.reset_on_batch (TrainingLoopProgress.batch_loop tr))).
Proof.
  unfold TrainingLoopProgress.increment_epoch_completed.
  erewrite bind_return by (apply zoom_run, (increment_run Completed)).
  rewrite training_reset_on_epoch_run. reflexivity.
Qed.

Lemma loop_reset_on_epoch_run lp :
  LoopProgress.reset_on_epoch lp =
    (Return tt,
     LoopProgress.mk (reset_current (LoopProgress.epoch lp))
                     (reset_current (LoopProgress.batch lp))).
Proof.
  unfold LoopProgress.reset_on_epoch.
  erewrite bind_return by apply zoom_current_reset.
  rewrite zoom_current_reset. reflexivity.
Qed.

Lemma loop_increment_epoch_completed_run lp :
  LoopProgress.increment_epoch_completed lp =
    (Return tt,
     LoopProgress.mk (reset_current (incremented Completed (LoopProgress.epoch lp)))
                     (reset_current (LoopProgress.batch lp))).
Proof.
  unfold LoopProgress.increment_epoch_completed.
  erewrite bind_return by (apply zoom_run, (increment_run Completed)).
  rewrite loop_reset_on_epoch_run. reflexivity.
Qed.

Lemma slot_totals_reset o : slot_totals (reset_slot_currents o) = slot_totals o.
Proof. reflexivity. Qed.

Lemma flat_map_slot_totals_reset xs :
  flat_map slot_totals (map reset_slot_currents xs) = flat_map slot_totals xs.
Proof. induction xs as [|x rest IH]; simpl; [reflexivity|]. now rewrite IH. Qed.

(** C5.  [TrainingLoopProgress.increment_epoch_completed()] returns normally;
    it performs [epoch.increment_completed()] (one more on [epoch.total] and
    [epoch.current] when [completed] is enabled on both) and does not reset
    [epoch.current]; it resets the current tracker of [batch_loop.batch] and
    of the optimizer, scheduler and zero_grad progress of every slot, and
    keeps every total tracker but [epoch.total], as well as the inherited
    [batch] field.  [LoopProgress.increment_epoch_completed()] makes the same
    increment and then resets both [batch.current] and [epoch.current]. *)
Theorem increment_epoch_completed_spec
    (tr : TrainingLoopProgress.t) (lp : LoopProgress.t) :
  let tr' := exec TrainingLoopProgress.increment_epoch_completed tr in
  let bl := TrainingLoopProgress.batch_loop tr in
  let bl' := TrainingLoopProgress.batch_loop tr' in
  let lp' := exec LoopProgress.increment_epoch_completed lp in
  result TrainingLoopProgress.increment_epoch_completed tr = Return tt
  /\ TrainingLoopProgress.epoch tr' = incremented Completed (TrainingLoopProgress.epoch tr)
  /\ (forall a b,
        Tracker.completed (Progress.total (TrainingLoopProgress.epoch tr)) = Some a ->
        Tracker.completed (Progress.current (TrainingLoopProgress.epoch tr)) = Some b ->
        Tracker.completed (Progress.total (TrainingLoopProgress.epoch tr')) = Some (a + 1) /\
        Tracker.completed (Progress.current (TrainingLoopProgress.epoch tr')) = Some (b + 1))
  /\ (forall F, F <> Completed ->
        Tracker.get F (Progress.current (TrainingLoopProgress.epoch tr')) =
        Tracker.get F (Progress.current (TrainingLoopProgress.epoch tr)))
  /\ BatchLoopProgress.batch bl' = reset_current (BatchLoopProgress.batch bl)
  /\ BatchLoopProgress.optimizations bl' =
       map reset_slot_currents (BatchLoopProgress.optimizations bl)
  /\ Progress.total (BatchLoopProgress.batch bl') = Progress.total (BatchLoopProgress.batch bl)
  /\ flat_map slot_totals (BatchLoopProgress.optimizations bl') =
       flat_map slot_totals (BatchLoopProgress.optimizations bl)
  /\ TrainingLoopProgress.batch tr' = TrainingLoopProgress.batch tr
  /\ BatchLoopProgress.optimizer_idx bl' = BatchLoopProgress.optimizer_idx bl
  /\ BatchLoopProgress.num_optimizers bl' = BatchLoopProgress.num_optimizers bl
  /\ result LoopProgress.increment_epoch_completed lp = Return tt
  /\ LoopProgress.epoch lp' = reset_current (incremented Completed (LoopProgress.epoch lp))
  /\ LoopProgress.batch lp' = reset_current (LoopProgress.batch lp).
Proof.
  intros tr' bl bl' lp'. subst tr' bl bl' lp'. unfold result, exec.
  rewrite training_increment_epoch_completed_run, loop_increment_epoch_completed_run.
  unfold exec. rewrite batch_loop_reset_on_batch_run.
  cbn [fst snd TrainingLoopProgress.epoch TrainingLoopProgress.batch
       TrainingLoopProgress.batch_loop BatchLoopProgress.batch
       BatchLoopProgress.optimizations BatchLoopProgress.optimizer_idx
       BatchLoopProgress.num_optimizers LoopProgress.epoch LoopProgress.batch].
  repeat split; try reflexivity.
  - rewrite (incremented_enabled Completed _ a b H H0). reflexivity.
  - rewrite (incremented_enabled Completed _ a b H H0). reflexivity.
  - intros F HF. unfold incremented.
    destruct (Tracker.get Completed (Progress.total (TrainingLoopProgress.epoch tr)));
      [|reflexivity].
    destruct (Tracker.get Completed (Progress.current (TrainingLoopProgress.epoch tr)));
      [|reflexivity].
    cbn [Progress.current]. apply get_set_other. congruence.
  - apply flat_map_slot_totals_reset.
Qed.

Lemma increment_epoch_completed_spec_witness :
  Tracker.completed (Progress.total (TrainingLoopProgress.epoch
    (exec TrainingLoopProgress.increment_epoch_completed TrainingLoopProgress.fresh))) = Some 1
  /\ Tracker.ready (Progress.current (TrainingLoopProgress.epoch
    (exec TrainingLoopProgress.increment_epoch_completed TrainingLoopProgress.fresh))) = Some 0.
Proof.
  destruct (increment_epoch_completed_spec TrainingLoopProgress.fresh LoopProgress.fresh)
    as (_ & _ & Hinc & Hkeep & _).
  split.
  - exact (proj1 (Hinc 0 0 eq_refl eq_refl)).
  - assert (Ready <> Completed) as Hne by discriminate.
    exact (Hkeep Ready Hne).
Defined.

(** C6, as the specification has it, fails for
    [TrainingLoopProgress.reset_on_batch()]: after one
    [batch_loop.batch.increment_ready()] the call leaves
    [batch_loop.batch.current.ready] at 1. *)
Lemma training_reset_on_batch_keeps_batch_current :
  let tr' := exec TrainingLoopProgress.reset_on_batch one_batch_ready in
  Tracker.ready (Progress.current (BatchLoopProgress.batch
    (TrainingLoopProgress.batch_loop one_batch_ready))) = Some 1
  /\ result TrainingLoopProgress.reset_on_batch one_batch_ready = Return tt
  /\ Tracker.ready (Progress.current (BatchLoopProgress.batch
       (TrainingLoopProgress.batch_loop tr'))) = Some 1
  /\ Tracker.ready (Progress.current (BatchLoopProgress.batch
       (TrainingLoopProgress.batch_loop tr'))) <> Some 0.
Proof. repeat split; try reflexivity. discriminate. Qed.

(** C6, amended.  [TrainingLoopProgress.reset_on_batch()] returns normally
    and resets the current tracker of the optimizer, scheduler and zero_grad
    progress of every slot; it changes nothing else: no [batch.current], no
    total tracker, no epoch counter.  [BatchLoopProgress.reset_on_batch()]
    does the same to the slots and resets its own [batch.current] too, again
    keeping every total tracker. *)
Theorem reset_on_batch_spec (tr : TrainingLoopProgress.t) (bl : BatchLoopProgress.t) :
  TrainingLoopProgress.reset_on_batch tr =
    (Return tt,
     TrainingLoopProgress.mk
       (TrainingLoopProgress.epoch tr)
       (TrainingLoopProgress.batch tr)
       (BatchLoopProgress.mk
          (BatchLoopProgress.batch (TrainingLoopProgress.batch_loop tr))
          (BatchLoopProgress.optimizer_idx (TrainingLoopProgress.batch_loop tr))
          (BatchLoopProgress.num_optimizers (TrainingLoopProgress.batch_loop tr))
          (map reset_slot_currents
               (BatchLoopProgress.optimizations (TrainingLoopProgress.batch_loop tr)))))
  /\ BatchLoopProgress.reset_on_batch bl =
    (Return tt,
     BatchLoopProgress.mk
       (reset_current (BatchLoopProgress.batch bl))
       (BatchLoopProgress.optimizer_idx bl)
       (BatchLoopProgress.num_optimizers bl)
       (map reset_slot_currents (BatchLoopProgress.optimizations bl)))
  /\ (forall o F,
        Tracker.get F (Progress.current (OptimizationProgress.optimizer (reset_slot_currents o)))
          = zeroed (Tracker.get F (Progress.current (OptimizationProgress.optimizer o))) /\
        Tracker.get F (Progress.current (OptimizationProgress.scheduler (reset_slot_currents o)))
          = zeroed (Tracker.get F (Progress.current (OptimizationProgress.scheduler o))) /\
        Tracker.get F (Progress.current (OptimizationProgress.zero_grad (reset_slot_currents o)))
          = zeroed (Tracker.get F (Progress.current (OptimizationProgress.zero_grad o))) /\
        slot_totals (reset_slot_currents o) = slot_totals o)
  /\ (forall p F,
        Tracker.get F (Progress.current (reset_current p))
          = zeroed (Tracker.get F (Progress.current p)) /\
        Progress.total (reset_current p) = Progress.total p).
Proof.
  split; [apply training_reset_on_batch_run|].
  split; [apply batch_loop_reset_on_batch_run|].
  split.
  - intros o F. cbn. rewrite !reset_tracker_get. now repeat split.
  - intros p F. cbn. rewrite reset_tracker_get. now split.
Qed.

(** ** Total counters never go down *)

Lemma counter_step_refl a : counter_step a a.
Proof. now left. Qed.

Lemma tracker_step_refl x : tracker_step x x.
Proof. intros f. apply counter_step_refl. Qed.

Lemma counter_step_le a b : counter_step a b -> counter_le a b.
Proof.
  intros [->|(x & -> & ->)]; unfold counter_le.
  - destruct a; [lia|exact I].
  - lia.
Qed.

Lemma tracker_step_le x y : tracker_step x y -> tracker_le x y.
Proof. intros H f. apply counter_step_le, H. Qed.

Lemma counter_le_trans a b c : counter_le a b -> counter_le b c -> counter_le a c.
Proof. unfold counter_le. destruct a, b, c; try tauto; lia. Qed.

Lemma tracker_le_refl x : tracker_le x x.
Proof. intros f. apply counter_step_le, counter_step_refl. Qed.

Lemma tracker_le_trans x y z : tracker_le x y -> tracker_le y z -> tracker_le x z.
Proof. intros H1 H2 f. eapply counter_le_trans; [apply H1|apply H2]. Qed.

Lemma Forall2_tracker_step_refl xs : Forall2 tracker_step xs xs.
Proof. induction xs; constructor; [apply tracker_step_refl|assumption]. Qed.

Lemma Forall2_tracker_le_trans xs : forall ys zs,
  Forall2 tracker_le xs ys -> Forall2 tracker_le ys zs -> Forall2 tracker_le xs zs.
Proof.
  induction xs as [|x xs IH]; intros ys zs H1 H2.
  - inversion H1; subst. inversion H2; subst. constructor.
  - inversion H1 as [|? y ? ys' Hxy Hrest]; subst.
    inversion H2 as [|? z ? zs' Hyz Hrest']; subst.
    constructor; [eapply tracker_le_trans; eassumption|].
    eapply IH; eassumption.
Qed.

Lemma Forall2_three {A} (R : A -> A -> Prop) a b c a' b' c' :
  R a a' -> R b b' -> R c c' -> Forall2 R [a; b; c] [a'; b'; c'].
Proof.
  intros. constructor; [assumption|]. constructor; [assumption|].
  constructor; [assumption|constructor].
Qed.

Lemma incremented_total_step f p :
  tracker_step (Progress.total p) (Progress.total (incremented f p)).
Proof.
  unfold incremented.
  destruct (Tracker.get f (Progress.total p)) as [a|] eqn:Ha;
    [|apply tracker_step_refl].
  destruct (Tracker.get f (Progress.current p)) as [b|];
    [|apply tracker_step_refl].
  cbn [Progress.total]. intros g. destruct (decide (f = g)) as [<-|Hne].
  - rewrite get_set_same. right. now exists a.
  - rewrite get_set_other by assumption. now left.
Qed.

Lemma exec_at_index {A B} i (m : M A B) xs :
  exec (at_index i m) xs =
    match xs !! i with
    | Some x => <[i := exec m x]> xs
    | None => xs
    end.
Proof.
  unfold exec, at_index. destruct (xs !! i) as [x|]; [|reflexivity].
  now destruct (m x).
Qed.

Lemma exec_zoom {S T A} (l : lens S T) (m : M T A) s :
  exec (zoom l m) s = put l (exec m (view l s)) s.
Proof. unfold exec, zoom. now destruct (m (view l s)). Qed.

Lemma slot_totals_increment_step p f o :
  Forall2 tracker_step (slot_totals o)
          (slot_totals (exec (zoom (_part p) (Progress.increment f)) o)).
Proof.
  unfold exec. erewrite zoom_run by apply increment_run.
  destruct p; cbn; apply Forall2_three;
    first [apply incremented_total_step | apply tracker_step_refl].
Qed.

Lemma flat_map_insert_step (g : OptimizationProgress.t -> list Tracker.t) x' :
  forall xs i x,
    xs !! i = Some x ->
    Forall2 tracker_step (g x) (g x') ->
    Forall2 tracker_step (flat_map g xs) (flat_map g (<[i := x']> xs)).
Proof.
  induction xs as [|y xs IH]; intros i x Hi Hstep.
  - discriminate Hi.
  - destruct i as [|i]; cbn in *.
    + injection Hi as ->. apply Forall2_app; [assumption|].
      apply Forall2_tracker_step_refl.
    + apply Forall2_app; [apply Forall2_tracker_step_refl|].
      now apply IH with x.
Qed.

Lemma totals_step_intro a b c xs d e a' b' c' xs' d' e' :
  tracker_step a a' -> tracker_step b b' -> tracker_step c c' ->
  Forall2 tracker_step (flat_map slot_totals xs) (flat_map slot_totals xs') ->
  tracker_step d d' -> tracker_step e e' ->
  Forall2 tracker_step ([a; b; c] ++ flat_map slot_totals xs ++ [d; e])
                       ([a'; b'; c'] ++ flat_map slot_totals xs' ++ [d'; e']).
Proof.
  intros. apply Forall2_app; [apply Forall2_three; assumption|].
  apply Forall2_app; [assumption|].
  constructor; [assumption|]. constructor; [assumption|constructor].
Qed.

(** A reset call leaves every total tracker exactly as it was. *)
Lemma reset_call_totals c fit :
  is_reset c = true -> totals (exec (run_call c) fit) = totals fit.
Proof.
  destruct fit as [[e b [bb idx n opts]] [ve vb]].
  destruct c; try discriminate; intros _; unfold exec, run_call.
  - erewrite zoom_run by apply training_reset_on_epoch_run.
    unfold exec. rewrite batch_loop_reset_on_batch_run.
    unfold totals. cbn. now rewrite flat_map_slot_totals_reset.
  - erewrite zoom_run by apply training_reset_on_batch_run.
    unfold totals. cbn. now rewrite flat_map_slot_totals_reset.
  - erewrite zoom_run by apply batch_loop_reset_on_batch_run.
    unfold totals. cbn. now rewrite flat_map_slot_totals_reset.
  - erewrite zoom_run by apply loop_reset_on_epoch_run. reflexivity.
Qed.

(** Every call moves every total counter by 0 or by +1. *)
Lemma run_call_step c fit :
  Forall2 tracker_step (totals fit) (totals (exec (run_call c) fit)).
Proof.
  destruct (is_reset c) eqn:Hreset.
  { rewrite reset_call_totals by assumption. apply Forall2_tracker_step_refl. }
  destruct fit as [[e b [bb idx n opts]] [ve vb]].
  destruct c as [r f| | | | | |]; try discriminate; unfold run_call.
  - destruct r; unfold on_progress.
    1-3,5-6: unfold exec; erewrite zoom_run by apply increment_run; unfold totals; cbn;
      apply totals_step_intro;
      first [apply incremented_total_step | apply tracker_step_refl
            | apply Forall2_tracker_step_refl].
    rewrite exec_zoom, exec_at_index. unfold totals. cbn.
    apply totals_step_intro; try apply tracker_step_refl.
    destruct (opts !! i) as [x|] eqn:Hi; [|apply Forall2_tracker_step_refl].
    apply flat_map_insert_step with x; [assumption|].
    apply slot_totals_increment_step.
  - unfold exec.
    erewrite zoom_run by apply training_increment_epoch_completed_run.
    unfold exec. rewrite batch_loop_reset_on_batch_run.
    unfold totals. cbn. rewrite flat_map_slot_totals_reset.
    apply totals_step_intro;
      first [apply incremented_total_step | apply tracker_step_refl
            | apply Forall2_tracker_step_refl].
  - unfold exec. erewrite zoom_run by apply loop_increment_epoch_completed_run.
    unfold totals. cbn.
    apply totals_step_intro;
      first [apply (incremented_total_step Completed) | apply tracker_step_refl
            | apply Forall2_tracker_step_refl].
Qed.

Lemma Forall2_step_le xs ys :
  Forall2 tracker_step xs ys -> Forall2 tracker_le xs ys.
Proof.
  induction 1; constructor; [now apply tracker_step_le|assumption].
Qed.

Lemma Forall2_tracker_le_refl xs : Forall2 tracker_le xs xs.
Proof. apply Forall2_step_le, Forall2_tracker_step_refl. Qed.

(** C7.  Along every sequence of public calls on a [FitLoopProgress] (the
    increments of any [Progress] it contains, [increment_epoch_completed],
    [reset_on_epoch] and [reset_on_batch] of its training and validation
    loops and of the batch loop) every counter of every total tracker stays
    enabled or disabled as it was and never goes down; a reset call leaves
    the total trackers exactly as they were, and any single call moves a
    total counter by 0 or by +1. *)
Theorem totals_monotone (fit : FitLoopProgress.t) (cs : list call) :
  Forall2 tracker_le (totals fit) (totals (run_calls cs fit))
  /\ (forall c, is_reset c = true -> totals (exec (run_call c) fit) = totals fit)
  /\ (forall c, Forall2 tracker_step (totals fit) (totals (exec (run_call c) fit))).
Proof.
  split; [|split].
  - revert fit. induction cs as [|c rest IH]; intros fit; cbn [run_calls].
    + apply Forall2_tracker_le_refl.
    + eapply Forall2_tracker_le_trans; [|apply IH].
      apply Forall2_step_le, run_call_step.
  - intros c. apply reset_call_totals.
  - intros c. apply run_call_step.
Qed.

Lemma totals_monotone_witness :
  totals (exec (run_call TrainResetOnEpoch) FitLoopProgress.fresh)
    = totals FitLoopProgress.fresh.
Proof.
  apply (proj1 (proj2 (totals_monotone FitLoopProgress.fresh []))). reflexivity.
Defined.

(** ** Unwrapping *)

(** C9, as the specification has it, fails: no function of the source goes
    through the three wrappers.  [unwrap_lightning_module_sharded] hands a
    fully-sharded model on to [unwrap_lightning_module] as it is, and
    [unwrap_lightning_module_full_sharded] does so with a sharded one,
    whatever [unwrap_lightning_module] is; when that last step returns its
    argument, neither yields the innermost model. *)
Lemma unwrap_not_the_chain :
  Fairscale.spec_unwrap Fairscale.fully_sharded_example = Fairscale.user_model
  /\ Fairscale.unwrap_lightning_module_sharded id Fairscale.fully_sharded_example
       = Fairscale.fully_sharded_example
  /\ Fairscale.unwrap_lightning_module_sharded id Fairscale.fully_sharded_example
       <> Fairscale.spec_unwrap Fairscale.fully_sharded_example
  /\ Fairscale.spec_unwrap Fairscale.sharded_example = Fairscale.user_model
  /\ Fairscale.unwrap_lightning_module_full_sharded id Fairscale.sharded_example
       = Fairscale.sharded_example
  /\ Fairscale.unwrap_lightning_module_full_sharded id Fairscale.sharded_example
       <> Fairscale.spec_unwrap Fairscale.sharded_example
  /\ (forall base,
        Fairscale.unwrap_lightning_module_sharded base Fairscale.fully_sharded_example
          = base Fairscale.fully_sharded_example)
  /\ (forall base,
        Fairscale.unwrap_lightning_module_full_sharded base Fairscale.sharded_example
          = base Fairscale.sharded_example).
Proof. repeat split; try reflexivity; discriminate. Qed.

Section UnwrapProperties.

Import Fairscale.

Variable unwrap_lightning_module : model -> model.

#[local] Abbreviation sharded :=
  (unwrap_lightning_module_sharded unwrap_lightning_module).
#[local] Abbreviation full_sharded :=
  (unwrap_lightning_module_full_sharded unwrap_lightning_module).

Lemma strip_other w m : isinstance m w = false -> strip w m = m.
Proof. destruct m as [|w' inner]; cbn; [reflexivity|]. now intros ->. Qed.

Lemma strip_same w inner : strip w (Wrapped w inner) = inner.
Proof. cbn. now rewrite bool_decide_eq_true_2. Qed.

(** C9, amended.  [unwrap_lightning_module_sharded] takes the inner module
    of a sharded wrapper and of nothing else;
    [unwrap_lightning_module_full_sharded] takes the inner module of a
    fully-sharded wrapper and then, whether or not it did, the inner module
    of a flattened-parameters wrapper; each returns what
    [unwrap_lightning_module] makes of the result.  On a model whose class
    is none of the three, both return [unwrap_lightning_module(model)],
    which is the model itself when [unwrap_lightning_module] leaves it
    alone.  Each function agrees with the chain of the specification,
    followed by [unwrap_lightning_module], on the models that do not carry
    the wrappers it does not look for. *)
Theorem unwrap_spec (m : model) :
  sharded m = unwrap_lightning_module (strip ShardedDataParallel m)
  /\ full_sharded m =
       unwrap_lightning_module
         (strip FlattenParamsWrapper (strip FullyShardedDataParallel m))
  /\ (forall inner,
        sharded (Wrapped ShardedDataParallel inner) = unwrap_lightning_module inner)
  /\ (forall inner,
        full_sharded (Wrapped FullyShardedDataParallel (Wrapped FlattenParamsWrapper inner))
          = unwrap_lightning_module inner)
  /\ (forall inner,
        full_sharded (Wrapped FlattenParamsWrapper inner) = unwrap_lightning_module inner)
  /\ (forall inner,
        isinstance inner FlattenParamsWrapper = false ->
        full_sharded (Wrapped FullyShardedDataParallel inner) = unwrap_lightning_module inner)
  /\ (no_known_wrapper m ->
        sharded m = unwrap_lightning_module m /\
        full_sharded m = unwrap_lightning_module m /\
        (unwrap_lightning_module m = m -> sharded m = m /\ full_sharded m = m))
  /\ (isinstance m ShardedDataParallel = false ->
        full_sharded m = unwrap_lightning_module (spec_unwrap m))
  /\ (isinstance (strip ShardedDataParallel m) FullyShardedDataParallel = false ->
      isinstance (strip ShardedDataParallel m) FlattenParamsWrapper = false ->
        sharded m = unwrap_lightning_module (spec_unwrap m)).
Proof.
  unfold unwrap_lightning_module_sharded, unwrap_lightning_module_full_sharded.
  split; [reflexivity|]. split; [reflexivity|].
  split; [intros inner; now rewrite strip_same|].
  split; [intros inner; now rewrite !strip_same|].
  split; [intros inner; rewrite (strip_other FullyShardedDataParallel) by reflexivity;
          now rewrite strip_same|].
  split; [intros inner H; now rewrite strip_same, strip_other|].
  split; [|split].
  - intros (Hs & Hf & Hp).
    rewrite (strip_other ShardedDataParallel), (strip_other FullyShardedDataParallel),
      (strip_other FlattenParamsWrapper) by assumption.
    split; [reflexivity|]. split; [reflexivity|]. intros ->. now split.
  - intros Hs. unfold spec_unwrap. now rewrite (strip_other ShardedDataParallel).
  - intros Hf Hp. unfold spec_unwrap.
    now rewrite (strip_other FullyShardedDataParallel), (strip_other FlattenParamsWrapper).
Qed.

End UnwrapProperties.

Lemma unwrap_spec_witness :
  Fairscale.unwrap_lightning_module_sharded id Fairscale.user_model = Fairscale.user_model
  /\ Fairscale.unwrap_lightning_module_full_sharded id Fairscale.user_model
       = Fairscale.user_model
  /\ Fairscale.unwrap_lightning_module_full_sharded id Fairscale.fully_sharded_example
       = Fairscale.spec_unwrap Fairscale.fully_sharded_example.
Proof.
  destruct (unwrap_spec id Fairscale.user_model) as (_ & _ & _ & _ & _ & _ & Hplain & _).
  destruct Hplain as (_ & _ & Hid); [now repeat split|].
  destruct (Hid eq_refl) as [Hs Hf].
  split; [exact Hs|]. split; [exact Hf|].
  destruct (unwrap_spec id Fairscale.fully_sharded_example) as (_ & _ & _ & _ & _ & _ & _ & H & _).
  apply H. reflexivity.
Defined.

(** ** Object graphs on the heap *)

Section HeapProperties.

Import Heap.
#[local] Open Scope nat_scope.

Lemma lookup_app_add (h k : heap) i : (h ++ k) !! (length h + i) = k !! i.
Proof. rewrite lookup_app_r by lia. f_equal. lia. Qed.

Lemma progress_at_app h k P v : progress_at h P v -> progress_at (h ++ k) P v.
Proof.
  intros (H1 & H2 & H3). repeat split; now apply lookup_app_l_Some.
Qed.

Lemma holds_app h k L o : holds h L o -> holds (h ++ k) L o.
Proof.
  intros [H1 H2]. split; [now apply lookup_app_l_Some|].
  intros p. apply progress_at_app, H2.
Qed.

Lemma progress_at_frame ls h h' P v :
  progress_at h P v -> same_outside ls h h' ->
  (forall l, l ∈ progress_cells P -> l ∉ ls) ->
  progress_at h' P v.
Proof.
  intros (H1 & H2 & H3) [_ Hsame] Hout. unfold progress_cells in Hout.
  repeat split; rewrite Hsame; try assumption; apply Hout; set_solver.
Qed.

Lemma holds_frame ls h h' L o :
  holds h L o -> same_outside ls h h' ->
  (forall l, l ∈ cells L -> l ∉ ls) ->
  holds h' L o.
Proof.
  intros [H1 H2] Hsame Hout. split.
  - destruct Hsame as [_ Hsame]. rewrite Hsame; [assumption|].
    apply Hout. unfold cells. apply list_elem_of_here.
  - intros p. apply progress_at_frame with ls h; [apply H2|assumption|].
    intros l Hl. apply Hout. unfold cells. apply list_elem_of_further.
    rewrite !elem_of_app. destruct p; tauto.
Qed.

Lemma get_tracker_run (h : heap) l x :
  h !! l = Some (OTracker x) -> get_tracker l h = (Return x, h).
Proof. intros H. unfold get_tracker. now rewrite H. Qed.

Lemma get_progress_run (h : heap) l a b :
  h !! l = Some (OProgress a b) -> get_progress l h = (Return (a, b), h).
Proof. intros H. unfold get_progress. now rewrite H. Qed.

Lemma get_optimization_run (h : heap) l o s z :
  h !! l = Some (OOptimizationProgress o s z) ->
  get_optimization l h = (Return (o, s, z), h).
Proof. intros H. unfold get_optimization. now rewrite H. Qed.

Lemma at_tracker_run {A} (h : heap) l x (m : M Tracker.t A) :
  h !! l = Some (OTracker x) ->
  at_tracker l m h = (result m x, <[l := OTracker (exec m x)]> h).
Proof.
  intros H. unfold at_tracker, result, exec. rewrite H. now destruct (m x).
Qed.

Lemma deepcopy_tracker_run (h : heap) (memo : gmap loc loc) l x :
  memo !! l = None -> h !! l = Some (OTracker x) ->
  deepcopy_tracker l memo h =
    (Return (length h, <[l := length h]> memo), h ++ [OTracker x]).
Proof.
  intros Hm Hl. unfold deepcopy_tracker. rewrite Hm.
  erewrite bind_return by (apply get_tracker_run; eassumption).
  reflexivity.
Qed.

Lemma deepcopy_progress_run (h : heap) (memo : gmap loc loc) P v :
  progress_at h P v -> NoDup (progress_cells P) ->
  (forall l, l ∈ progress_cells P -> memo !! l = None) ->
  deepcopy_progress (at_progress P) memo h =
    (Return (length h + 2,
             <[at_progress P := length h + 2]>
               (<[at_current P := length h + 1]> (<[at_total P := length h]> memo))),
     h ++ progress_copy (length h) v).
Proof.
  intros (Hp & Ht & Hc) Hnd Hfresh. unfold progress_cells in *.
  apply NoDup_cons in Hnd as [Hn1 Hnd]. apply NoDup_cons in Hnd as [Hn2 _].
  unfold deepcopy_progress. rewrite Hfresh by set_solver.
  erewrite bind_return by (apply get_progress_run; eassumption).
  cbv beta iota.
  erewrite bind_return by (apply deepcopy_tracker_run; [apply Hfresh; set_solver|eassumption]).
  cbv beta iota.
  erewrite bind_return.
  2:{ apply deepcopy_tracker_run.
      - rewrite lookup_insert_ne by set_solver. apply Hfresh; set_solver.
      - apply lookup_app_l_Some. eassumption. }
  cbv beta iota.
  unfold alloc, mbind, M_bind, mret, M_ret.
  rewrite !length_app. cbn [length].
  unfold progress_copy. rewrite <- !app_assoc. cbn [app].
  replace (length h + 1 + 1) with (length h + 2) by lia. reflexivity.
Qed.

Lemma progress_at_copy (h : heap) v :
  progress_at (h ++ progress_copy (length h) v) (progress_copy_layout (length h)) v.
Proof.
  unfold progress_at, progress_copy_layout, progress_copy. cbn.
  rewrite <- (Nat.add_0_r (length h)) at 2.
  rewrite !lookup_app_add. cbn. rewrite Nat.add_0_r.
  repeat split. rewrite <- (Nat.add_0_r (length h)) at 1. now rewrite lookup_app_add.
Qed.

Lemma progress_cells_copy_NoDup b : NoDup (progress_cells (progress_copy_layout b)).
Proof.
  unfold progress_cells, progress_copy_layout. cbn.
  repeat (apply NoDup_cons; split; [rewrite ?elem_of_cons, ?elem_of_nil; lia|]).
  apply NoDup_nil_2.
Qed.


Lemma cells_NoDup_parts L :
  NoDup (cells L) ->
  (forall p, NoDup (progress_cells (at_part L p)))
  /\ (forall p, at_slot L ∉ progress_cells (at_part L p))
  /\ (forall p q l, p <> q ->
        l ∈ progress_cells (at_part L p) -> l ∉ progress_cells (at_part L q)).
Proof.
  unfold cells. intros Hnd.
  apply NoDup_cons in Hnd as [Hslot Hnd].
  apply NoDup_app in Hnd as (Ho & Hos & Hnd).
  apply NoDup_app in Hnd as (Hs & Hsz & Hz).
  rewrite !not_elem_of_app in Hslot. destruct Hslot as (Hs1 & Hs2 & Hs3).
  split; [intros []; assumption|]. split; [intros []; assumption|].
  intros p q l Hpq Hl Hl'.
  destruct p, q; try congruence.
  - apply (Hos l Hl). rewrite elem_of_app. now left.
  - apply (Hos l Hl). rewrite elem_of_app. now right.
  - apply (Hos l Hl'). rewrite elem_of_app. now left.
  - now apply (Hsz l Hl).
  - apply (Hos l Hl'). rewrite elem_of_app. now right.
  - now apply (Hsz l Hl').
Qed.

Lemma memo_after_progress (memo : gmap loc loc) P x y z l :
  memo !! l = None -> l ∉ progress_cells P ->
  (<[at_progress P := x]> (<[at_current P := y]> (<[at_total P := z]> memo))) !! l = None.
Proof.
  unfold progress_cells. rewrite !not_elem_of_cons. intros Hm (H1 & H2 & H3 & _).
  rewrite !lookup_insert_ne by congruence. exact Hm.
Qed.

Lemma length_progress_copy (h : heap) v :
  length (h ++ progress_copy (length h) v) = length h + 3.
Proof. now rewrite length_app. Qed.

Lemma deepcopy_run (h : heap) L o :
  holds h L o -> NoDup (cells L) ->
  deepcopy (at_slot L) h =
    (Return (length h + 9), h ++ optimization_copy (length h) o).
Proof.
  intros [Hslot Hparts] Hnd.
  destruct (cells_NoDup_parts L Hnd) as (Hnd_p & Hslot_p & Hdisj).
  unfold deepcopy, deepcopy_optimization. rewrite lookup_empty.
  erewrite bind_return.
  2:{ erewrite bind_return by (apply get_optimization_run; eassumption).
      cbv beta iota.
      erewrite bind_return.
      2:{ apply deepcopy_progress_run; [apply (Hparts Optimizer)|apply Hnd_p|].
          intros l _. apply lookup_empty. }
      cbv beta iota.
      erewrite bind_return.
      2:{ apply deepcopy_progress_run;
            [apply progress_at_app, (Hparts Scheduler)|apply Hnd_p|].
          intros l Hl. apply memo_after_progress; [apply lookup_empty|].
          now apply (Hdisj Scheduler Optimizer). }
      cbv beta iota.
      erewrite bind_return.
      2:{ apply deepcopy_progress_run;
            [apply progress_at_app, progress_at_app, (Hparts ZeroGrad)|apply Hnd_p|].
          intros l Hl. apply memo_after_progress.
          - apply memo_after_progress; [apply lookup_empty|].
            now apply (Hdisj ZeroGrad Optimizer).
          - now apply (Hdisj ZeroGrad Scheduler). }
      cbv beta iota.
      unfold alloc, mbind, M_bind, mret, M_ret. reflexivity. }
  cbv beta iota. unfold mret, M_ret.
  rewrite !length_progress_copy.
  unfold optimization_copy, progress_copy. rewrite <- !app_assoc. cbn [app].
  replace (length h + 3 + 3 + 3) with (length h + 9) by lia.
  replace (length h + 3 + 3 + 2) with (length h + 8) by lia.
  replace (length h + 3 + 3 + 1) with (length h + 7) by lia.
  replace (length h + 3 + 2) with (length h + 5) by lia.
  replace (length h + 3 + 3) with (length h + 6) by lia.
  replace (length h + 3 + 1) with (length h + 4) by lia.
  reflexivity.
Qed.

Lemma lookup_app_length (h k : heap) : (h ++ k) !! length h = k !! 0.
Proof. rewrite <- (Nat.add_0_r (length h)) at 1. apply lookup_app_add. Qed.

Lemma holds_copy (h : heap) o :
  holds (h ++ optimization_copy (length h) o) (copy_layout (length h)) o.
Proof.
  unfold holds, progress_at, copy_layout, optimization_copy.
  cbn [at_slot at_part at_progress at_total at_current].
  split.
  - now rewrite lookup_app_add.
  - intros p. destruct p; cbn [view _part OptimizationProgress._optimizer
      OptimizationProgress._scheduler OptimizationProgress._zero_grad
      at_progress at_total at_current];
      rewrite ?lookup_app_add, ?lookup_app_length; repeat split.
Qed.

Lemma cells_copy b l : l ∈ cells (copy_layout b) -> b <= l < b + 10.
Proof.
  unfold cells, copy_layout, progress_cells.
  cbn [at_slot at_part at_progress at_total at_current app].
  rewrite !elem_of_cons, elem_of_nil. lia.
Qed.

Lemma cells_copy_NoDup b : NoDup (cells (copy_layout b)).
Proof.
  unfold cells, copy_layout, progress_cells.
  cbn [at_slot at_part at_progress at_total at_current app].
  repeat (apply NoDup_cons; split; [rewrite ?elem_of_cons, ?elem_of_nil; lia|]).
  apply NoDup_nil_2.
Qed.


Lemma defaults_eq : defaults = mk_defaults 2 5 8.
Proof. reflexivity. Qed.

Lemma defaults_intact_imported rest : defaults_intact (imported ++ rest).
Proof. intros p. apply progress_at_app. destruct p; repeat split. Qed.

Lemma defaults_intact_app h k : defaults_intact h -> defaults_intact (h ++ k).
Proof. intros H p. apply progress_at_app, H. Qed.

Lemma defaults_intact_length h : defaults_intact h -> 9 <= length h.
Proof.
  intros H. destruct (H ZeroGrad) as (Hp & _). cbn in Hp.
  apply lookup_lt_Some in Hp. lia.
Qed.

(** One round of the generator. *)
Lemma make_slot_run (h : heap) :
  defaults_intact h ->
  (fresh_one ← OptimizationProgress_new defaults; deepcopy fresh_one) h =
    (Return (length h + 10),
     h ++ OOptimizationProgress 2 5 8
       :: optimization_copy (length h + 1) OptimizationProgress.fresh).
Proof.
  intros Hd. pose proof (defaults_intact_length h Hd) as Hlen.
  erewrite bind_return by reflexivity.
  rewrite defaults_eq. cbn [optimizer_default scheduler_default zero_grad_default].
  pose (L := mk_layout (length h) default_part).
  change (length h) with (at_slot L) at 1.
  rewrite (deepcopy_run _ L OptimizationProgress.fresh).
  - rewrite length_app. cbn [length]. rewrite <- app_assoc. cbn [app].
    replace (length h + 1 + 9) with (length h + 10) by lia. reflexivity.
  - split.
    + cbn [at_slot L]. now rewrite lookup_app_length.
    + intros p. apply progress_at_app, Hd.
  - unfold cells, progress_cells. cbn.
    apply NoDup_cons. split; [rewrite !elem_of_cons, elem_of_nil; lia|].
    repeat (apply NoDup_cons; split; [rewrite ?elem_of_cons, ?elem_of_nil; lia|]).
    apply NoDup_nil_2.
Qed.

Lemma make_slots_run n : forall h : heap,
  defaults_intact h ->
  exists k,
    make_slots defaults n h = (Return (slot_addrs (length h) n), h ++ k)
    /\ forall i l, slot_addrs (length h) n !! i = Some l ->
         exists b, l = at_slot (copy_layout b)
           /\ b = length h + 11 * i + 1
           /\ b + 10 <= length (h ++ k)
           /\ holds (h ++ k) (copy_layout b) OptimizationProgress.fresh.
Proof.
  induction n as [|n IH]; intros h Hd.
  - exists []. split; [now rewrite app_nil_r|]. intros i l Hi. discriminate Hi.
  - set (k1 := OOptimizationProgress 2 5 8
                 :: optimization_copy (length h + 1) OptimizationProgress.fresh).
    assert (length (h ++ k1) = length h + 11) as Hlen by now rewrite length_app.
    destruct (IH (h ++ k1)) as (k2 & Hrun & Hslots); [now apply defaults_intact_app|].
    exists (k1 ++ k2). rewrite app_assoc. split.
    + cbn [make_slots].
      change (fresh_one ← OptimizationProgress_new defaults;
              slot ← deepcopy fresh_one;
              rest ← make_slots defaults n; mret (slot :: rest))
        with ((fresh_one ← OptimizationProgress_new defaults; deepcopy fresh_one)
              ≫= (fun slot => rest ← make_slots defaults n; mret (slot :: rest))).
      erewrite bind_return by (now apply make_slot_run).
      fold k1. erewrite bind_return by exact Hrun.
      rewrite Hlen. reflexivity.
    + intros i l Hi. destruct i as [|i]; cbn [slot_addrs lookup list_lookup] in Hi.
      * injection Hi as <-. exists (length h + 1).
        split; [cbn; lia|]. split; [lia|]. split; [rewrite length_app; lia|].
        apply holds_app.
        replace (h ++ k1) with ((h ++ [OOptimizationProgress 2 5 8])
          ++ optimization_copy (length (h ++ [OOptimizationProgress 2 5 8]))
               OptimizationProgress.fresh).
        -- replace (length h + 1) with (length (h ++ [OOptimizationProgress 2 5 8]))
             by (rewrite length_app; reflexivity).
           apply holds_copy.
        -- rewrite length_app. cbn [length]. now rewrite <- app_assoc.
      * rewrite <- Hlen in Hi. destruct (Hslots i l Hi) as (b & Hl & Hb & Hlt & Hh).
        exists b. split; [assumption|]. split; [lia|]. split; assumption.
Qed.


(** *** Mutating one slot *)

Lemma same_outside_refl ls (h : heap) : same_outside ls h h.
Proof. now split. Qed.

Lemma same_outside_trans ls (h1 h2 h3 : heap) :
  same_outside ls h1 h2 -> same_outside ls h2 h3 -> same_outside ls h1 h3.
Proof.
  intros [Hl1 H1] [Hl2 H2]. split; [congruence|].
  intros l Hl. now rewrite H2, H1.
Qed.

Lemma same_outside_weaken ls ls' (h h' : heap) :
  (forall l, l ∈ ls -> l ∈ ls') -> same_outside ls h h' -> same_outside ls' h h'.
Proof.
  intros Hsub [Hlen H]. split; [assumption|]. intros l Hl. apply H. auto.
Qed.

Lemma same_outside_insert (h : heap) l x : same_outside [l] h (<[l := x]> h).
Proof.
  split; [apply length_insert|]. intros l' Hl'.
  apply list_lookup_insert_ne. intros ->. apply Hl'. apply list_elem_of_here.
Qed.

Lemma at_side_cell s P : at_side s P ∈ progress_cells P.
Proof.
  unfold progress_cells. destruct s; cbn; rewrite !elem_of_cons; tauto.
Qed.

(** Replacing the tracker on one side of a [Progress] in the heap. *)
Lemma progress_at_put (h : heap) P v s x :
  progress_at h P v -> NoDup (progress_cells P) ->
  progress_at (<[at_side s P := OTracker x]> h) P (put (_side s) x v).
Proof.
  intros (Hp & Ht & Hc) Hnd. unfold progress_cells in Hnd.
  apply NoDup_cons in Hnd as [Hn1 Hnd]. apply NoDup_cons in Hnd as [Hn2 _].
  rewrite !not_elem_of_cons in Hn1. rewrite not_elem_of_cons in Hn2.
  destruct Hn1 as (Hpt & Hpc & _). destruct Hn2 as [Htc _].
  pose proof (lookup_lt_Some _ _ _ Ht) as Hlt.
  pose proof (lookup_lt_Some _ _ _ Hc) as Hlc.
  destruct s; cbn [at_side _side put Progress._total Progress._current
                   Progress.total Progress.current]; repeat split.
  - now rewrite list_lookup_insert_ne by congruence.
  - now rewrite list_lookup_insert_eq.
  - now rewrite list_lookup_insert_ne by congruence.
  - now rewrite list_lookup_insert_ne by congruence.
  - now rewrite list_lookup_insert_ne by congruence.
  - now rewrite list_lookup_insert_eq.
Qed.

Lemma progress_at_side (h : heap) P v s :
  progress_at h P v -> h !! at_side s P = Some (OTracker (view (_side s) v)).
Proof. intros (_ & Ht & Hc). now destruct s. Qed.

(** A tracker method run through a reference does to the heap what it does
    to the value. *)
Lemma at_tracker_side {A} (h : heap) P v s (m : M Tracker.t A) :
  progress_at h P v -> NoDup (progress_cells P) ->
  exists h',
    at_tracker (at_side s P) m h = (result (zoom (_side s) m) v, h')
    /\ progress_at h' P (exec (zoom (_side s) m) v)
    /\ same_outside (progress_cells P) h h'.
Proof.
  intros Hat Hnd. eexists. split; [|split].
  - rewrite (at_tracker_run h _ _ m (progress_at_side h P v s Hat)).
    unfold result, zoom. destruct (m (view (_side s) v)); reflexivity.
  - rewrite exec_zoom. now apply progress_at_put.
  - eapply same_outside_weaken; [|apply same_outside_insert].
    intros l Hl. apply list_elem_of_singleton in Hl as ->. apply at_side_cell.
Qed.

Lemma put_view_side s v : put (_side s) (view (_side s) v) v = v.
Proof. now destruct s, v. Qed.

(** [increment_<f>] through a reference, on a [Progress] whose two trackers
    are two objects. *)
Lemma progress_increment_run (h : heap) P v f :
  progress_at h P v -> NoDup (progress_cells P) ->
  exists h',
    Progress_increment f (at_progress P) h = (Return tt, h')
    /\ progress_at h' P (incremented f v)
    /\ same_outside (progress_cells P) h h'.
Proof.
  intros Hat Hnd. pose proof Hat as (Hp & Ht & Hc).
  unfold Progress_increment.
  erewrite bind_return by (apply get_progress_run; eassumption). cbv beta iota.
  erewrite bind_return by (apply get_tracker_run; eassumption).
  erewrite bind_return by (apply get_tracker_run; eassumption).
  unfold incremented, Progress.is_None.
  destruct (Tracker.get f (Progress.total v)) as [a|] eqn:Ha; cycle 1.
  { exists h. cbn. split; [reflexivity|]. split; [assumption|apply same_outside_refl]. }
  destruct (Tracker.get f (Progress.current v)) as [b|] eqn:Hb; cycle 1.
  { exists h. cbn. split; [reflexivity|]. split; [assumption|apply same_outside_refl]. }
  rewrite !bool_decide_eq_false_2 by discriminate. cbn [orb].
  destruct (at_tracker_side h P v Total (Tracker.iadd f 1) Hat Hnd)
    as (h1 & Hrun1 & Hat1 & Hsame1).
  rewrite exec_zoom in Hat1. unfold result, zoom in Hrun1.
  cbn [view _side Progress._total] in Hrun1, Hat1. unfold exec in Hat1.
  rewrite (iadd_enabled f 1 _ a Ha) in Hrun1, Hat1. cbn [fst snd] in Hrun1, Hat1.
  destruct (at_tracker_side h1 P _ Current (Tracker.iadd f 1) Hat1 Hnd)
    as (h2 & Hrun2 & Hat2 & Hsame2).
  rewrite exec_zoom in Hat2. unfold result, zoom in Hrun2.
  cbn [view put _side Progress._total Progress._current Progress.current Progress.total]
    in Hrun2, Hat2.
  unfold exec in Hat2.
  rewrite (iadd_enabled f 1 _ b Hb) in Hrun2, Hat2. cbn [fst snd] in Hrun2, Hat2.
  exists h2. split; [|split].
  - erewrite bind_return by exact Hrun1. exact Hrun2.
  - exact Hat2.
  - now apply same_outside_trans with h1.
Qed.


Lemma zoom_compose {S T U A} (l1 : lens S T) (l2 : lens T U) (m : M U A) s :
  zoom (l1 /. l2) m s = zoom l1 (zoom l2 m) s.
Proof. unfold zoom. cbn. now destruct (m (view l2 (view l1 s))). Qed.

Lemma result_zoom {S T A} (l : lens S T) (m : M T A) s :
  result (zoom l m) s = result m (view l s).
Proof. unfold result, zoom. now destruct (m (view l s)). Qed.

Lemma view_put_part_same p v o : view (_part p) (put (_part p) v o) = v.
Proof. now destruct p. Qed.

Lemma view_put_part_other p q v o :
  p <> q -> view (_part q) (put (_part p) v o) = view (_part q) o.
Proof. destruct p, q; try congruence; reflexivity. Qed.

Lemma progress_cells_in_cells L p l :
  l ∈ progress_cells (at_part L p) -> l ∈ cells L.
Proof.
  intros Hl. unfold cells. apply list_elem_of_further.
  rewrite !elem_of_app. destruct p; tauto.
Qed.

(** Changing one [Progress] of a slot, inside its own cells, gives the slot
    with that attribute replaced. *)
Lemma holds_update_part (h h' : heap) L o p v' :
  holds h L o -> NoDup (cells L) ->
  progress_at h' (at_part L p) v' ->
  same_outside (progress_cells (at_part L p)) h h' ->
  holds h' L (put (_part p) v' o).
Proof.
  intros [Hslot Hparts] Hnd Hat Hsame.
  destruct (cells_NoDup_parts L Hnd) as (_ & Hslot_p & Hdisj).
  split.
  - destruct Hsame as [_ Hsame]. rewrite Hsame; [assumption|apply Hslot_p].
  - intros q. destruct (decide (p = q)) as [<-|Hne].
    + now rewrite view_put_part_same.
    + rewrite view_put_part_other by assumption.
      apply progress_at_frame with (progress_cells (at_part L p)) h;
        [apply Hparts|assumption|].
      intros l Hl. apply (Hdisj q p); [congruence|assumption].
Qed.

Lemma part_of_run (h : heap) L o p :
  holds h L o -> part_of p (at_slot L) h = (Return (at_progress (at_part L p)), h).
Proof.
  intros [Hslot _]. unfold part_of.
  erewrite bind_return by (apply get_optimization_run; eassumption).
  now destruct p.
Qed.

Lemma side_of_run (h : heap) P v s :
  progress_at h P v -> side_of s (at_progress P) h = (Return (at_side s P), h).
Proof.
  intros (Hp & _). unfold side_of.
  erewrite bind_return by (apply get_progress_run; eassumption).
  now destruct s.
Qed.

(** A tracker method called through a slot. *)
Lemma mutate_tracker_run (h : heap) L o p s (m : M Tracker.t unit) :
  holds h L o -> NoDup (cells L) ->
  exists h',
    (pr ← part_of p (at_slot L); x ← side_of s pr; at_tracker x m) h
      = (result (zoom (_part p /. _side s) m) o, h')
    /\ holds h' L (exec (zoom (_part p /. _side s) m) o)
    /\ same_outside (cells L) h h'.
Proof.
  intros Hh Hnd. pose proof Hh as [_ Hparts].
  destruct (cells_NoDup_parts L Hnd) as (Hnd_p & _ & _).
  destruct (at_tracker_side h (at_part L p) _ s m (Hparts p) (Hnd_p p))
    as (h' & Hrun & Hat & Hsame).
  exists h'. split; [|split].
  - erewrite bind_return by (eapply part_of_run; eassumption).
    erewrite bind_return by (eapply side_of_run; apply Hparts).
    rewrite Hrun. f_equal. unfold result. rewrite zoom_compose.
    fold (result (zoom (_part p) (zoom (_side s) m)) o). now rewrite result_zoom.
  - unfold exec. rewrite zoom_compose.
    fold (exec (zoom (_part p) (zoom (_side s) m)) o). rewrite exec_zoom.
    now apply holds_update_part with h.
  - eapply same_outside_weaken; [|eassumption].
    intros l. apply progress_cells_in_cells.
Qed.

(** Every mutation made through a slot does to the heap what
    [mutate_value] does to the value of the slot, and touches no object
    outside the slot. *)
Lemma mutate_run (h : heap) L o m :
  holds h L o -> NoDup (cells L) ->
  exists h',
    mutate (at_slot L) m h = (result (mutate_value m) o, h')
    /\ holds h' L (exec (mutate_value m) o)
    /\ same_outside (cells L) h h'.
Proof.
  intros Hh Hnd. destruct m as [p f|p s|p s key v];
    unfold mutate, mutate_value.
  - pose proof Hh as [_ Hparts].
    destruct (cells_NoDup_parts L Hnd) as (Hnd_p & _ & _).
    destruct (progress_increment_run h (at_part L p) _ f (Hparts p) (Hnd_p p))
      as (h' & Hrun & Hat & Hsame).
    exists h'. split; [|split].
    + erewrite bind_return by (eapply part_of_run; eassumption).
      rewrite Hrun. f_equal. rewrite result_zoom. unfold result.
      now rewrite increment_run.
    + rewrite exec_zoom. unfold exec. rewrite increment_run.
      now apply holds_update_part with h.
    + eapply same_outside_weaken; [|eassumption].
      intros l. apply progress_cells_in_cells.
  - now apply mutate_tracker_run.
  - now apply mutate_tracker_run.
Qed.

Lemma mutates_run ms : forall (h : heap) L o,
  holds h L o -> NoDup (cells L) ->
  holds (mutates (at_slot L) ms h) L (mutate_values ms o)
  /\ same_outside (cells L) h (mutates (at_slot L) ms h).
Proof.
  induction ms as [|m ms IH]; intros h L o Hh Hnd; cbn [mutates mutate_values].
  - split; [assumption|apply same_outside_refl].
  - destruct (mutate_run h L o m Hh Hnd) as (h' & Hrun & Hh' & Hsame).
    unfold exec at 1 3. rewrite Hrun. cbn [snd].
    destruct (IH h' L _ Hh' Hnd) as [Hfinal Hsame'].
    split; [assumption|]. now apply same_outside_trans with h'.
Qed.

(** Reading back a slot that the heap holds. *)
Lemma read_progress_at (h : heap) P v :
  progress_at h P v -> read_progress h (at_progress P) = Some v.
Proof.
  intros (Hp & Ht & Hc). unfold read_progress, read_tracker.
  rewrite Hp, Ht, Hc. now destruct v.
Qed.

Lemma read_holds (h : heap) L o :
  holds h L o -> read_optimization h (at_slot L) = Some o.
Proof.
  intros [Hslot Hparts]. unfold read_optimization. rewrite Hslot.
  rewrite (read_progress_at _ _ _ (Hparts Optimizer)),
    (read_progress_at _ _ _ (Hparts Scheduler)),
    (read_progress_at _ _ _ (Hparts ZeroGrad)).
  now destruct o.
Qed.

Lemma slot_addrs_length b n : length (slot_addrs b n) = n.
Proof. revert b. induction n as [|n IH]; intros b; cbn; [reflexivity|]. now rewrite IH. Qed.


Lemma progress_new_run (h : heap) :
  Progress_new h = (Return (length h + 2), h ++ progress_copy (length h) Progress.fresh).
Proof.
  unfold Progress_new, Progress_from_defaults, Tracker_new, alloc, mbind, M_bind.
  rewrite !length_app. cbn [length]. rewrite <- !app_assoc. cbn [app].
  replace (length h + 1 + 1) with (length h + 2) by lia. reflexivity.
Qed.

(** C8.  [BatchLoopProgress(num_optimizers=n)], run in any heap in which the
    class-level defaults of [OptimizationProgress] are as the import left
    them, returns normally with exactly [n] slots in [optimizations]; every
    slot reads as the default [OptimizationProgress] (optimizer and
    zero_grad built with [processed=None], scheduler with [started=None] and
    [processed=None]); and after any sequence of increments, resets and
    attribute writes made through slot [i], slot [i] reads as the default
    with those mutations applied while every other slot [j] still reads as
    the default. *)
Theorem slots_independent (rest : heap) (n : nat) :
  exists bl h,
    BatchLoopProgress_new defaults (Z.of_nat n) (imported ++ rest) = (Return bl, h)
    /\ length (optimizations bl) = n
    /\ read_batch_loop h bl
         = Some (BatchLoopProgress.new Progress.fresh (Some 0%Z) (Z.of_nat n))
    /\ (forall j lj,
          optimizations bl !! j = Some lj ->
          read_optimization h lj = Some OptimizationProgress.fresh)
    /\ OptimizationProgress.fresh =
         (let no_processed := Tracker.new (Some 0%Z) (Some 0%Z) None (Some 0%Z) in
          let no_started := Tracker.new (Some 0%Z) None None (Some 0%Z) in
          OptimizationProgress.mk
            (Progress.mk no_processed no_processed)
            (Progress.mk no_started no_started)
            (Progress.mk no_processed no_processed))
    /\ (forall i j li lj ms,
          i <> j ->
          optimizations bl !! i = Some li ->
          optimizations bl !! j = Some lj ->
          read_optimization (mutates li ms h) li
            = Some (mutate_values ms OptimizationProgress.fresh)
          /\ read_optimization (mutates li ms h) lj
            = Some OptimizationProgress.fresh).
Proof.
  set (h0 := imported ++ rest).
  set (h1 := h0 ++ progress_copy (length h0) Progress.fresh).
  assert (defaults_intact h1) as Hd
    by apply defaults_intact_app, defaults_intact_imported.
  destruct (make_slots_run n h1 Hd) as (k & Hrun & Hslots).
  exists (mk_batch_loop (length h0 + 2) (Some 0%Z) (Z.of_nat n)
                        (slot_addrs (length h1) n)), (h1 ++ k).
  assert (forall j lj, slot_addrs (length h1) n !! j = Some lj ->
            read_optimization (h1 ++ k) lj = Some OptimizationProgress.fresh) as Hread.
  { intros j lj Hj.
    destruct (Hslots j lj Hj) as (b & -> & _ & _ & Hh). now apply read_holds. }
  split; [|split; [|split; [|split; [|split; [reflexivity|]]]]].
  - unfold BatchLoopProgress_new.
    erewrite bind_return by apply progress_new_run.
    rewrite Nat2Z.id.
    erewrite bind_return by exact Hrun.
    reflexivity.
  - apply slot_addrs_length.
  - unfold read_batch_loop. cbn [batch optimizations optimizer_idx num_optimizers].
    change (length h0 + 2) with (at_progress (progress_copy_layout (length h0))).
    rewrite (read_progress_at (h1 ++ k) (progress_copy_layout (length h0)) Progress.fresh)
      by apply progress_at_app, progress_at_copy.
    cbn [mbind option_bind].
    assert (mapM (read_optimization (h1 ++ k)) (slot_addrs (length h1) n)
            = Some (replicate n OptimizationProgress.fresh)) as ->.
    { apply mapM_Some. apply Forall2_same_length_lookup_2.
      - now rewrite slot_addrs_length, length_replicate.
      - intros j lj o Hj Ho. apply lookup_replicate in Ho as [-> _]. now apply Hread with j. }
    unfold BatchLoopProgress.new. now rewrite Nat2Z.id.
  - intros j lj Hj. now apply Hread with j.
  - intros i j li lj ms Hij Hi Hj. cbn [optimizations] in Hi, Hj.
    destruct (Hslots i li Hi) as (bi & -> & Hbi & _ & Hhi).
    destruct (Hslots j lj Hj) as (bj & -> & Hbj & _ & Hhj).
    destruct (mutates_run ms (h1 ++ k) (copy_layout bi) _ Hhi (cells_copy_NoDup bi))
      as [Hafter Hsame].
    split; [now apply read_holds|].
    apply read_holds. apply holds_frame with (cells (copy_layout bi)) (h1 ++ k);
      [assumption|assumption|].
    intros l Hlj Hli. apply cells_copy in Hlj. apply cells_copy in Hli. lia.
Qed.

End HeapProperties.

Lemma slots_independent_witness :
  exists bl h,
    Heap.BatchLoopProgress_new Heap.defaults 3 Heap.imported = (Return bl, h)
    /\ Heap.optimizations bl = [22; 33; 44]%nat
    /\ Heap.read_optimization
         (Heap.mutates 22%nat [MIncrement Optimizer Ready; MReset Scheduler Current] h)
         33%nat
       = Some OptimizationProgress.fresh.
Proof.
  destruct (slots_independent [] 3) as (bl & h & Hrun & _ & _ & _ & _ & Hind).
  rewrite app_nil_r in Hrun. exists bl, h. split; [exact Hrun|].
  assert (Heap.optimizations bl = [22; 33; 44]%nat) as Hopts.
  { vm_compute in Hrun. injection Hrun as <- _. reflexivity. }
  split; [exact Hopts|].
  apply (Hind 0%nat 1%nat 22%nat 33%nat); [discriminate| |]; rewrite Hopts; reflexivity.
Defined.

(** Without [deepcopy] the slots would all refer to the class-level default
    objects, and an increment made through the first slot would show in the
    second: the situation the comment in [__post_init__] describes. *)
Example slots_shared_without_deepcopy :
  exists l0 l1 h,
    Heap.make_slots_shared Heap.defaults 2 Heap.imported = (Return [l0; l1], h)
    /\ l0 <> l1
    /\ Heap.read_optimization h l1 = Some OptimizationProgress.fresh
    /\ Heap.read_optimization (Heap.mutates l0 [MIncrement Optimizer Ready] h) l1
       = Some (mutate_values [MIncrement Optimizer Ready] OptimizationProgress.fresh).
Proof.
  exists 9%nat, 10%nat. eexists. split; [reflexivity|].
  split; [discriminate|]. split; reflexivity.
Qed.

(** * Further properties *)

(** ** The order of increments *)

Lemma incremented_comm f g p :
  incremented g (incremented f p) = incremented f (incremented g p).
Proof.
  destruct p as [[r1 s1 p1 c1 e1] [r2 s2 p2 c2 e2]].
  destruct f, g; unfold incremented; cbn;
    repeat match goal with
           | |- context [match ?x with Some _ => _ | None => _ end] =>
               is_var x; destruct x; cbn
           end; reflexivity.
Qed.

Lemma increments_run fs : forall p,
  increments fs p = (Return tt, fold_left (fun q f => incremented f q) fs p).
Proof.
  induction fs as [|f rest IH]; intros p; cbn [increments fold_left]; [reflexivity|].
  erewrite bind_return by apply increment_run. apply IH.
Qed.

Lemma fold_incremented_perm fs gs :
  Permutation fs gs ->
  forall p, fold_left (fun q f => incremented f q) fs p
          = fold_left (fun q f => incremented f q) gs p.
Proof.
  induction 1 as [|f fs gs _ IH|f g fs|fs gs hs _ IH1 _ IH2]; intros p; cbn [fold_left].
  - reflexivity.
  - apply IH.
  - now rewrite incremented_comm.
  - now rewrite IH1.
Qed.

(** X1.  The state a sequence of [increment_<f>] calls leaves a [Progress] in
    depends on how often each increment is called, not on the order: two
    sequences that are permutations of each other give the same result. *)
Theorem increments_order_irrelevant (fs gs : list field) (p : Progress.t) :
  Permutation fs gs -> increments fs p = increments gs p.
Proof.
  intros H. rewrite !increments_run. f_equal. now apply fold_incremented_perm.
Qed.

Lemma increments_order_irrelevant_witness :
  increments [Ready; Started; Completed; Ready] OptimizationProgress.fresh.(OptimizationProgress.scheduler)
  = increments [Completed; Ready; Ready; Started] OptimizationProgress.fresh.(OptimizationProgress.scheduler).
Proof.
  apply increments_order_irrelevant.
  apply (Permutation_trans (l' := [Ready; Completed; Started; Ready])).
  - apply perm_skip, perm_swap.
  - apply (Permutation_trans (l' := [Completed; Ready; Started; Ready])).
    + apply perm_swap.
    + do 2 apply perm_skip. apply perm_swap.
Defined.

(** ** What a reset forgets *)

Lemma reset_tracker_idem x : reset_tracker (reset_tracker x) = reset_tracker x.
Proof. destruct x as [[r|] [s|] [p|] [c|] e]; reflexivity. Qed.

Lemma reset_tracker_set f z x y :
  Tracker.get f x = Some y ->
  reset_tracker (Tracker.set f (Some z) x) = reset_tracker x.
Proof.
  destruct x as [r s p c e]. destruct f; cbn; intros ->; reflexivity.
Qed.

Lemma reset_after_counting_call c x :
  is_counting c = true ->
  reset_tracker (exec (run_tracker_call c) x) = reset_tracker x.
Proof.
  unfold exec. destruct c as [key v| |f n]; cbn [run_tracker_call is_counting].
  - destruct (field_of_name key) as [f|] eqn:Ef; [|discriminate].
    destruct v as [z|]; [|discriminate]. intros _.
    apply field_of_name_Some in Ef as ->.
    destruct (Tracker.get f x) as [y|] eqn:Eg.
    + rewrite (setattr_enabled f _ x y Eg). cbn [snd]. now apply reset_tracker_set with y.
    + now rewrite (setattr_disabled f _ x Eg).
  - intros _. rewrite reset_run. apply reset_tracker_idem.
  - intros _. unfold Tracker.iadd, mbind, M_bind, gets.
    destruct (Tracker.get f x) as [y|] eqn:Eg; [|reflexivity].
    rewrite (setattr_enabled f _ x y Eg). cbn [snd]. now apply reset_tracker_set with y.
Qed.

(** X2.  [reset()] forgets the counting done before it: after any sequence
    of [+=], assignments of integers to the four fields and earlier resets
    (calls that raise included), [reset()] returns normally and leaves the
    tracker that [reset()] would have left at the start.  In particular
    [reset()] is idempotent. *)
Theorem reset_forgets_counting (cs : list tracker_call) (x : Tracker.t) :
  forallb is_counting cs = true ->
  Tracker.reset (run_tracker_calls cs x) = (Return tt, exec Tracker.reset x).
Proof.
  unfold exec. rewrite !reset_run. cbn [snd]. intros H. f_equal.
  revert x H. induction cs as [|c rest IH]; intros x H; cbn [run_tracker_calls]; [reflexivity|].
  cbn [forallb] in H. apply andb_prop in H as [Hc Hrest].
  rewrite IH by assumption. now apply reset_after_counting_call.
Qed.

Lemma reset_forgets_counting_witness :
  Tracker.reset
    (run_tracker_calls [AddTo Ready 3; ResetAll; Assign "completed" (Some 7); AddTo Processed 1]
       (Tracker.new (Some 1) (Some 2) None (Some 0)))
  = (Return tt, Tracker.new (Some 0) (Some 0) None (Some 0)).
Proof.
  apply (reset_forgets_counting
           [AddTo Ready 3; ResetAll; Assign "completed" (Some 7); AddTo Processed 1]
           (Tracker.new (Some 1) (Some 2) None (Some 0))).
  reflexivity.
Defined.

(** ** What a public call does to each [Progress] *)

Lemma Forall2_progress_step_refl ps : Forall2 progress_step ps ps.
Proof. induction ps; constructor; [constructor|assumption]. Qed.

Lemma Forall2_map_step (g : OptimizationProgress.t -> OptimizationProgress.t) :
  (forall o, Forall2 progress_step (slot_progresses o) (slot_progresses (g o))) ->
  forall xs, Forall2 progress_step (flat_map slot_progresses xs)
                                   (flat_map slot_progresses (map g xs)).
Proof.
  intros Hg xs. induction xs as [|x rest IH]; cbn [flat_map map]; [constructor|].
  apply Forall2_app; [apply Hg|assumption].
Qed.

Lemma slot_progresses_reset o :
  Forall2 progress_step (slot_progresses o) (slot_progresses (reset_slot_currents o)).
Proof. repeat (constructor; [apply step_reset|]). constructor. Qed.

Lemma flat_map_insert_progress_step x' : forall xs i x,
  xs !! i = Some x ->
  Forall2 progress_step (slot_progresses x) (slot_progresses x') ->
  Forall2 progress_step (flat_map slot_progresses xs)
                        (flat_map slot_progresses (<[i := x']> xs)).
Proof.
  induction xs as [|y xs IH]; intros i x Hi Hstep.
  - discriminate Hi.
  - destruct i as [|i]; cbn [flat_map] in *.
    + injection Hi as ->. apply Forall2_app; [assumption|].
      apply Forall2_progress_step_refl.
    + apply Forall2_app; [apply Forall2_progress_step_refl|].
      now apply IH with x.
Qed.

Lemma progresses_step_intro a b c xs d e a' b' c' xs' d' e' :
  progress_step a a' -> progress_step b b' -> progress_step c c' ->
  Forall2 progress_step (flat_map slot_progresses xs) (flat_map slot_progresses xs') ->
  progress_step d d' -> progress_step e e' ->
  Forall2 progress_step ([a; b; c] ++ flat_map slot_progresses xs ++ [d; e])
                        ([a'; b'; c'] ++ flat_map slot_progresses xs' ++ [d'; e']).
Proof.
  intros. apply Forall2_app; [apply Forall2_three; assumption|].
  apply Forall2_app; [assumption|].
  constructor; [assumption|]. constructor; [assumption|constructor].
Qed.

Lemma slot_progresses_increment p f o :
  Forall2 progress_step (slot_progresses o)
          (slot_progresses (exec (zoom (_part p) (Progress.increment f)) o)).
Proof.
  unfold exec. erewrite zoom_run by apply increment_run.
  destruct p; cbn; apply Forall2_three; constructor.
Qed.

(** Every public call changes every [Progress] of the [FitLoopProgress] in
    one of the four ways of [progress_step]. *)
Lemma run_call_progress_step c fit :
  Forall2 progress_step (progresses fit) (progresses (exec (run_call c) fit)).
Proof.
  destruct fit as [[e b [bb idx n opts]] [ve vb]].
  destruct c as [r f| | | | | |]; unfold run_call.
  - destruct r; unfold on_progress.
    1-3,5-6: unfold exec; erewrite zoom_run by apply increment_run; unfold progresses; cbn;
      apply progresses_step_intro;
      first [apply step_increment | apply step_none | apply Forall2_progress_step_refl].
    rewrite exec_zoom, exec_at_index. unfold progresses. cbn.
    apply progresses_step_intro; try apply step_none.
    destruct (opts !! i) as [x|] eqn:Hi; [|apply Forall2_progress_step_refl].
    apply flat_map_insert_progress_step with x; [assumption|].
    apply slot_progresses_increment.
  - unfold exec. erewrite zoom_run by apply training_increment_epoch_completed_run.
    unfold exec. rewrite batch_loop_reset_on_batch_run. unfold progresses. cbn.
    apply progresses_step_intro;
      first [apply (step_increment _ Completed) | apply step_reset | apply step_none
            | apply Forall2_map_step, slot_progresses_reset].
  - unfold exec. erewrite zoom_run by apply training_reset_on_epoch_run.
    unfold exec. rewrite batch_loop_reset_on_batch_run. unfold progresses. cbn.
    apply progresses_step_intro;
      first [apply step_reset | apply step_none
            | apply Forall2_map_step, slot_progresses_reset].
  - unfold exec. erewrite zoom_run by apply training_reset_on_batch_run.
    unfold progresses. cbn.
    apply progresses_step_intro;
      first [apply step_none | apply Forall2_map_step, slot_progresses_reset].
  - unfold exec. erewrite zoom_run by apply batch_loop_reset_on_batch_run.
    unfold progresses. cbn.
    apply progresses_step_intro;
      first [apply step_reset | apply step_none
            | apply Forall2_map_step, slot_progresses_reset].
  - unfold exec. erewrite zoom_run by apply loop_increment_epoch_completed_run.
    unfold progresses. cbn.
    apply progresses_step_intro;
      first [apply step_completed_reset | apply step_reset | apply step_none
            | apply Forall2_progress_step_refl].
  - unfold exec. erewrite zoom_run by apply loop_reset_on_epoch_run.
    unfold progresses. cbn.
    apply progresses_step_intro;
      first [apply step_reset | apply step_none | apply Forall2_progress_step_refl].
Qed.

(** *** The current count stays between 0 and the total count *)

Lemma in_range_incremented f p : in_range p -> in_range (incremented f p).
Proof.
  intros H. unfold incremented.
  destruct (Tracker.get f (Progress.total p)) as [a|] eqn:Ha; [|assumption].
  destruct (Tracker.get f (Progress.current p)) as [b|] eqn:Hb; [|assumption].
  intros g a' b'. cbn [Progress.total Progress.current].
  destruct (decide (f = g)) as [<-|Hne].
  - rewrite !get_set_same. intros [= <-] [= <-]. specialize (H f a b Ha Hb). lia.
  - rewrite !get_set_other by assumption. apply H.
Qed.

Lemma in_range_reset_current p : in_range p -> in_range (reset_current p).
Proof.
  intros H g a b. cbn [reset_current Progress.total Progress.current].
  rewrite reset_tracker_get. intros Ha Hb.
  destruct (Tracker.get g (Progress.current p)) as [b0|] eqn:E; [|discriminate].
  cbn in Hb. injection Hb as <-. specialize (H g a b0 Ha E). lia.
Qed.

Lemma in_range_step p q : progress_step p q -> in_range p -> in_range q.
Proof.
  intros [ |f| | ] H; auto using in_range_incremented, in_range_reset_current.
Qed.

Lemma Forall_step_inv (P : Progress.t -> Prop) ps qs :
  (forall p q, progress_step p q -> P p -> P q) ->
  Forall2 progress_step ps qs -> Forall P ps -> Forall P qs.
Proof.
  intros Hstep H2. induction H2 as [|p q ps qs Hpq _ IH]; intros HP; [constructor|].
  inversion HP; subst. constructor; [now apply Hstep with p|now apply IH].
Qed.

(** X3.  In a [FitLoopProgress()], and after any sequence of public calls
    on it, every counter that is enabled on both sides of a [Progress] has
    [0 <= current <= total]; the calls keep this true from any state in
    which it holds. *)
Theorem current_within_total (cs : list call) (fit : FitLoopProgress.t) :
  Forall in_range (progresses FitLoopProgress.fresh)
  /\ (Forall in_range (progresses fit) ->
      Forall in_range (progresses (run_calls cs fit))).
Proof.
  split.
  - unfold progresses. cbn.
    repeat (apply List.Forall_cons;
            [intros f a b Ha Hb; destruct f; cbn in Ha, Hb; try discriminate;
             injection Ha as <-; injection Hb as <-; lia|]).
    apply List.Forall_nil.
  - revert fit. induction cs as [|c rest IH]; intros fit H; cbn [run_calls]; [assumption|].
    apply IH. eapply Forall_step_inv; [apply in_range_step|apply run_call_progress_step|assumption].
Qed.

Lemma current_within_total_witness :
  Forall in_range
    (progresses (run_calls [Increment BatchLoopBatch Ready; Increment (Slot 0 Optimizer) Ready;
                            TrainIncrementEpochCompleted; Increment ValEpoch Started;
                            ValIncrementEpochCompleted]
                           FitLoopProgress.fresh)).
Proof.
  destruct (current_within_total
              [Increment BatchLoopBatch Ready; Increment (Slot 0 Optimizer) Ready;
               TrainIncrementEpochCompleted; Increment ValEpoch Started;
               ValIncrementEpochCompleted] FitLoopProgress.fresh) as [Hfresh Hkeep].
  exact (Hkeep Hfresh).
Defined.

(** *** No call enables or disables a counter *)

Lemma same_shape_refl x : same_shape x x.
Proof. now split. Qed.

Lemma same_shape_trans x y z : same_shape x y -> same_shape y z -> same_shape x z.
Proof.
  intros [H1 E1] [H2 E2]. split; [|congruence].
  intros f. rewrite H1. apply H2.
Qed.

Lemma same_shape_set f v x z :
  Tracker.get f x = Some z -> same_shape x (Tracker.set f (Some v) x).
Proof.
  intros H. split; [|now rewrite extra_set].
  intros g. destruct (decide (f = g)) as [<-|Hne].
  - rewrite get_set_same, H. split; discriminate.
  - now rewrite get_set_other.
Qed.

Lemma same_shape_reset x : same_shape x (reset_tracker x).
Proof.
  split; [|reflexivity]. intros f. rewrite reset_tracker_get.
  destruct (Tracker.get f x); cbn; split; congruence.
Qed.

Lemma progress_same_shape_refl p : progress_same_shape p p.
Proof. split; apply same_shape_refl. Qed.

Lemma progress_same_shape_trans p q r :
  progress_same_shape p q -> progress_same_shape q r -> progress_same_shape p r.
Proof. intros [H1 H2] [H3 H4]. split; eapply same_shape_trans; eassumption. Qed.

Lemma progress_same_shape_incremented f p : progress_same_shape p (incremented f p).
Proof.
  unfold incremented.
  destruct (Tracker.get f (Progress.total p)) as [a|] eqn:Ha;
    [|apply progress_same_shape_refl].
  destruct (Tracker.get f (Progress.current p)) as [b|] eqn:Hb;
    [|apply progress_same_shape_refl].
  split; cbn [Progress.total Progress.current]; eapply same_shape_set; eassumption.
Qed.

Lemma progress_same_shape_reset p : progress_same_shape p (reset_current p).
Proof. split; [apply same_shape_refl|apply same_shape_reset]. Qed.

Lemma progress_same_shape_step p q : progress_step p q -> progress_same_shape p q.
Proof.
  intros [ |f| | ].
  - apply progress_same_shape_refl.
  - apply progress_same_shape_incremented.
  - apply progress_same_shape_reset.
  - eapply progress_same_shape_trans;
      [apply progress_same_shape_incremented|apply progress_same_shape_reset].
Qed.

Lemma Forall2_shape_trans ps : forall qs rs,
  Forall2 progress_same_shape ps qs -> Forall2 progress_same_shape qs rs ->
  Forall2 progress_same_shape ps rs.
Proof.
  induction ps as [|p ps IH]; intros qs rs H1 H2.
  - inversion H1; subst. inversion H2; subst. constructor.
  - inversion H1; subst. inversion H2; subst.
    constructor; [eapply progress_same_shape_trans; eassumption|].
    eapply IH; eassumption.
Qed.

(** X4.  No sequence of public calls on a [FitLoopProgress] enables or
    disables a counter, on a total or on a current tracker, or touches an
    attribute outside the four fields. *)
Theorem shape_preserved (cs : list call) (fit : FitLoopProgress.t) :
  Forall2 progress_same_shape (progresses fit) (progresses (run_calls cs fit)).
Proof.
  revert fit. induction cs as [|c rest IH]; intros fit; cbn [run_calls].
  - induction (progresses fit); constructor;
      [apply progress_same_shape_refl|assumption].
  - eapply Forall2_shape_trans; [|apply IH].
    eapply Forall2_impl; [apply run_call_progress_step|].
    apply progress_same_shape_step.
Qed.

(** ** Completing [n] epochs *)

Lemma completed_only_succ n :
  Tracker.set Completed (Some (Z.of_nat n + 1)) (completed_only (Z.of_nat n))
  = completed_only (Z.of_nat (S n)).
Proof. unfold completed_only, Tracker.new. cbn. repeat f_equal. lia. Qed.

Lemma loop_epochs_from n : forall k,
  calls n LoopProgress.increment_epoch_completed
    (LoopProgress.mk (Progress.mk (completed_only (Z.of_nat k)) Tracker.fresh) Progress.fresh)
  = (Return tt,
     LoopProgress.mk (Progress.mk (completed_only (Z.of_nat (k + n))) Tracker.fresh)
                     Progress.fresh).
Proof.
  induction n as [|n IH]; intros k; cbn [calls].
  - now rewrite Nat.add_0_r.
  - erewrite bind_return by apply loop_increment_epoch_completed_run.
    replace (k + S n)%nat with (S k + n)%nat by lia. rewrite <- IH.
    f_equal. unfold incremented, reset_current. cbn.
    unfold completed_only, Tracker.new. repeat f_equal. lia.
Qed.

Lemma training_epochs_from n : forall k,
  calls n TrainingLoopProgress.increment_epoch_completed
    (TrainingLoopProgress.mk
       (Progress.mk (completed_only (Z.of_nat k)) (completed_only (Z.of_nat k)))
       Progress.fresh BatchLoopProgress.fresh)
  = (Return tt,
     TrainingLoopProgress.mk
       (Progress.mk (completed_only (Z.of_nat (k + n))) (completed_only (Z.of_nat (k + n))))
       Progress.fresh BatchLoopProgress.fresh).
Proof.
  induction n as [|n IH]; intros k; cbn [calls].
  - now rewrite Nat.add_0_r.
  - erewrite bind_return by apply training_increment_epoch_completed_run.
    replace (k + S n)%nat with (S k + n)%nat by lia. rewrite <- IH.
    f_equal. unfold incremented, exec. rewrite batch_loop_reset_on_batch_run. cbn.
    unfold completed_only, Tracker.new. repeat f_equal; lia.
Qed.

(** X5.  [n] calls of [increment_epoch_completed()] on a [LoopProgress()]
    leave [epoch.total == Tracker(completed=n)] with [epoch.current] and
    [batch] as new; on a [TrainingLoopProgress()] they leave
    [Tracker(completed=n)] in both [epoch.total] and [epoch.current], which
    is not reset, and the rest as new. *)
Theorem epochs_completed (n : nat) :
  calls n LoopProgress.increment_epoch_completed LoopProgress.fresh
    = (Return tt,
       LoopProgress.mk (Progress.mk (completed_only (Z.of_nat n)) Tracker.fresh)
                       Progress.fresh)
  /\ calls n TrainingLoopProgress.increment_epoch_completed TrainingLoopProgress.fresh
    = (Return tt,
       TrainingLoopProgress.mk
         (Progress.mk (completed_only (Z.of_nat n)) (completed_only (Z.of_nat n)))
         Progress.fresh BatchLoopProgress.fresh).
Proof.
  split.
  - apply (loop_epochs_from n 0).
  - apply (training_epochs_from n 0).
Qed.

(** ** Assigning an attribute and reading it back *)

Lemma field_name_inj f g : field_name f = field_name g -> f = g.
Proof. destruct f, g; cbn; intros H; try reflexivity; discriminate H. Qed.

Lemma lookup_attr_store key v x key' :
  Tracker.lookup_attr (Tracker.store key v x) key' =
    if decide (key' = key) then Some v else Tracker.lookup_attr x key'.
Proof.
  unfold Tracker.lookup_attr, Tracker.store.
  destruct (decide (key' = key)) as [->|Hne].
  - destruct (field_of_name key) as [f|] eqn:E.
    + now rewrite get_set_same.
    + cbn. apply lookup_insert_eq.
  - destruct (field_of_name key) as [f|] eqn:E;
      destruct (field_of_name key') as [g|] eqn:E'.
    + apply field_of_name_Some in E, E'. subst.
      rewrite get_set_other; [reflexivity|congruence].
    + now rewrite extra_set.
    + now destruct g.
    + cbn. now apply lookup_insert_ne.
Qed.

(** X6.  An assignment that passes the guard, to a name that the class
    does not serve through a descriptor, returns normally; reading the
    attribute back gives the value assigned, and every other attribute of
    the instance reads as before.  Every other assignment raises and leaves
    the tracker as it was. *)
Theorem setattr_roundtrip (key : string) (v : option Z) (x : Tracker.t) :
  (Tracker.getattr_is_None x key = false ->
   Tracker.descriptor_of_name key = None ->
     result (Tracker.__setattr__ key v) x = Return tt
     /\ Tracker.lookup_attr (exec (Tracker.__setattr__ key v) x) key = Some v
     /\ forall key', key' <> key ->
          Tracker.lookup_attr (exec (Tracker.__setattr__ key v) x) key'
          = Tracker.lookup_attr x key')
  /\ (Tracker.getattr_is_None x key = true \/
      Tracker.descriptor_of_name key <> None ->
        raises (result (Tracker.__setattr__ key v) x)
        /\ exec (Tracker.__setattr__ key v) x = x).
Proof.
  unfold result, exec.
  destruct (setattr_cases key v x) as [(G & D & ->)|([G|D] & e & ->)]; cbn [fst snd].
  - split.
    + intros _ _. split; [reflexivity|].
      split; [|intros key' Hne]; rewrite lookup_attr_store; now case_decide.
    + intros [G'|D']; congruence.
  - split; [congruence|]. intros _. split; [eexists|]; reflexivity.
  - split; [congruence|]. intros _. split; [eexists|]; reflexivity.
Qed.

Lemma setattr_roundtrip_witness :
  Tracker.lookup_attr
    (exec (Tracker.__setattr__ "non_existing_attr" (Some 10)) (Tracker.new (Some 10) (Some 0) (Some 0) None))
    "non_existing_attr" = Some (Some 10)
  /\ Tracker.lookup_attr
    (exec (Tracker.__setattr__ "non_existing_attr" (Some 10)) (Tracker.new (Some 10) (Some 0) (Some 0) None))
    "completed" = Some None
  /\ exec (Tracker.__setattr__ "__class__" (Some 10)) (Tracker.new (Some 10) (Some 0) (Some 0) None)
    = Tracker.new (Some 10) (Some 0) (Some 0) None.
Proof.
  destruct (setattr_roundtrip "non_existing_attr" (Some 10)
              (Tracker.new (Some 10) (Some 0) (Some 0) None)) as [Hok _].
  destruct Hok as (_ & Hsame & Hother); [reflexivity|reflexivity|].
  split; [exact Hsame|]. split.
  - rewrite Hother; [reflexivity|discriminate].
  - destruct (setattr_roundtrip "__class__" (Some 10)
                (Tracker.new (Some 10) (Some 0) (Some 0) None)) as [_ Hno].
    apply Hno. right. discriminate.
Defined.

(** ** Equality of trackers *)






(** ** How the loop-level resets compose *)

Lemma reset_current_idem p : reset_current (reset_current p) = reset_current p.
Proof.
  unfold reset_current. cbn [Progress.total Progress.current].
  now rewrite reset_tracker_idem.
Qed.

Lemma reset_slot_currents_idem o :
  reset_slot_currents (reset_slot_currents o) = reset_slot_currents o.
Proof.
  unfold reset_slot_currents.
  cbn [OptimizationProgress.optimizer OptimizationProgress.scheduler
       OptimizationProgress.zero_grad].
  now rewrite !reset_current_idem.
Qed.

Lemma map_reset_slot_currents_idem xs :
  map reset_slot_currents (map reset_slot_currents xs) = map reset_slot_currents xs.
Proof.
  induction xs as [|x rest IH]; cbn [map]; [reflexivity|].
  now rewrite reset_slot_currents_idem, IH.
Qed.

(** X8.  The loop-level resets are idempotent and absorb each other:
    [reset_on_epoch] after [reset_on_epoch] or after
    [increment_epoch_completed] changes nothing more, neither does a second
    [reset_on_batch]; on a [TrainingLoopProgress], [reset_on_epoch] and
    [reset_on_batch] in either order amount to [reset_on_epoch] alone, and
    [reset_on_batch] after [increment_epoch_completed] changes nothing more. *)
Theorem resets_compose (lp : LoopProgress.t) (bl : BatchLoopProgress.t)
    (tr : TrainingLoopProgress.t) :
  (LoopProgress.reset_on_epoch;; LoopProgress.reset_on_epoch) lp
    = LoopProgress.reset_on_epoch lp
  /\ (LoopProgress.increment_epoch_completed;; LoopProgress.reset_on_epoch) lp
    = LoopProgress.increment_epoch_completed lp
  /\ (BatchLoopProgress.reset_on_batch;; BatchLoopProgress.reset_on_batch) bl
    = BatchLoopProgress.reset_on_batch bl
  /\ (TrainingLoopProgress.reset_on_batch;; TrainingLoopProgress.reset_on_batch) tr
    = TrainingLoopProgress.reset_on_batch tr
  /\ (TrainingLoopProgress.reset_on_batch;; TrainingLoopProgress.reset_on_epoch) tr
    = TrainingLoopProgress.reset_on_epoch tr
  /\ (TrainingLoopProgress.reset_on_epoch;; TrainingLoopProgress.reset_on_batch) tr
    = TrainingLoopProgress.reset_on_epoch tr
  /\ (TrainingLoopProgress.increment_epoch_completed;; TrainingLoopProgress.reset_on_batch) tr
    = TrainingLoopProgress.increment_epoch_completed tr.
Proof.
  repeat split.
  - erewrite bind_return by apply loop_reset_on_epoch_run.
    rewrite !loop_reset_on_epoch_run. cbn [LoopProgress.epoch LoopProgress.batch].
    now rewrite !reset_current_idem.
  - erewrite bind_return by apply loop_increment_epoch_completed_run.
    rewrite loop_reset_on_epoch_run, loop_increment_epoch_completed_run.
    cbn [LoopProgress.epoch LoopProgress.batch].
    now rewrite !reset_current_idem.
  - erewrite bind_return by apply batch_loop_reset_on_batch_run.
    rewrite !batch_loop_reset_on_batch_run.
    cbn [BatchLoopProgress.batch BatchLoopProgress.optimizations
         BatchLoopProgress.optimizer_idx BatchLoopProgress.num_optimizers].
    now rewrite reset_current_idem, map_reset_slot_currents_idem.
  - erewrite bind_return by apply training_reset_on_batch_run.
    rewrite !training_reset_on_batch_run.
    cbn [TrainingLoopProgress.epoch TrainingLoopProgress.batch TrainingLoopProgress.batch_loop
         BatchLoopProgress.batch BatchLoopProgress.optimizations
         BatchLoopProgress.optimizer_idx BatchLoopProgress.num_optimizers].
    now rewrite map_reset_slot_currents_idem.
  - erewrite bind_return by apply training_reset_on_batch_run.
    rewrite !training_reset_on_epoch_run. unfold exec.
    rewrite !batch_loop_reset_on_batch_run.
    cbn [snd TrainingLoopProgress.epoch TrainingLoopProgress.batch TrainingLoopProgress.batch_loop
         BatchLoopProgress.batch BatchLoopProgress.optimizations
         BatchLoopProgress.optimizer_idx BatchLoopProgress.num_optimizers].
    now rewrite map_reset_slot_currents_idem.
  - erewrite bind_return by apply training_reset_on_epoch_run.
    rewrite training_reset_on_batch_run, training_reset_on_epoch_run. unfold exec.
    rewrite !batch_loop_reset_on_batch_run.
    cbn [snd TrainingLoopProgress.epoch TrainingLoopProgress.batch TrainingLoopProgress.batch_loop
         BatchLoopProgress.batch BatchLoopProgress.optimizations
         BatchLoopProgress.optimizer_idx BatchLoopProgress.num_optimizers].
    now rewrite map_reset_slot_currents_idem.
  - erewrite bind_return by apply training_increment_epoch_completed_run.
    rewrite training_reset_on_batch_run, training_increment_epoch_completed_run. unfold exec.
    rewrite !batch_loop_reset_on_batch_run.
    cbn [snd TrainingLoopProgress.epoch TrainingLoopProgress.batch TrainingLoopProgress.batch_loop
         BatchLoopProgress.batch BatchLoopProgress.optimizations
         BatchLoopProgress.optimizer_idx BatchLoopProgress.num_optimizers].
    now rewrite map_reset_slot_currents_idem.
Qed.

(** ** How many wrappers the two functions remove *)

Lemma strip_peel w m : exists j, (j <= 1)%nat /\ Fairscale.strip w m = Fairscale.peel j m.
Proof.
  destruct m as [name|w' inner].
  - exists 0%nat. split; [lia|reflexivity].
  - cbn. case_bool_decide.
    + exists 1%nat. split; [lia|]. now destruct inner.
    + exists 0%nat. split; [lia|reflexivity].
Qed.

Lemma peel_peel i j m : Fairscale.peel i (Fairscale.peel j m) = Fairscale.peel (j + i) m.
Proof.
  revert m. induction j as [|j IH]; intros m; cbn [Nat.add]; [now destruct i, m|].
  destruct m as [name|w inner]; cbn [Fairscale.peel]; [now destruct i|apply IH].
Qed.

(** X16.  Whatever [unwrap_lightning_module] is,
    [unwrap_lightning_module_sharded] hands it the model without at most one
    outer wrapper and [unwrap_lightning_module_full_sharded] without at most
    two: of several sharded, fully-sharded or flattened-parameters wrappers
    of the same class only the outermost is removed, and a fully-sharded
    wrapper inside a flattened-parameters one stays.  The first function
    with the second as its last step is the chain of three of the
    specification. *)
Theorem unwrap_layers (base : Fairscale.model -> Fairscale.model) :
  (forall m, exists j, (j <= 1)%nat /\
     Fairscale.unwrap_lightning_module_sharded base m = base (Fairscale.peel j m))
  /\ (forall m, exists j, (j <= 2)%nat /\
     Fairscale.unwrap_lightning_module_full_sharded base m = base (Fairscale.peel j m))
  /\ (forall k x,
        Fairscale.unwrap_lightning_module_sharded base
          (Fairscale.nest Fairscale.ShardedDataParallel (S k) x)
        = base (Fairscale.nest Fairscale.ShardedDataParallel k x))
  /\ (forall k x,
        Fairscale.unwrap_lightning_module_full_sharded base
          (Fairscale.nest Fairscale.FullyShardedDataParallel (S (S k)) x)
        = base (Fairscale.nest Fairscale.FullyShardedDataParallel (S k) x))
  /\ (forall k x,
        Fairscale.unwrap_lightning_module_full_sharded base
          (Fairscale.nest Fairscale.FlattenParamsWrapper (S (S k)) x)
        = base (Fairscale.nest Fairscale.FlattenParamsWrapper (S k) x))
  /\ (forall x,
        Fairscale.unwrap_lightning_module_full_sharded base
          (Fairscale.Wrapped Fairscale.FlattenParamsWrapper
             (Fairscale.Wrapped Fairscale.FullyShardedDataParallel x))
        = base (Fairscale.Wrapped Fairscale.FullyShardedDataParallel x))
  /\ (forall m,
        Fairscale.unwrap_lightning_module_sharded
          (Fairscale.unwrap_lightning_module_full_sharded base) m
        = base (Fairscale.spec_unwrap m)).
Proof.
  split; [|split].
  - intros m. unfold Fairscale.unwrap_lightning_module_sharded.
    destruct (strip_peel Fairscale.ShardedDataParallel m) as (j & Hj & ->). now exists j.
  - intros m. unfold Fairscale.unwrap_lightning_module_full_sharded.
    destruct (strip_peel Fairscale.FullyShardedDataParallel m) as (j & Hj & ->).
    destruct (strip_peel Fairscale.FlattenParamsWrapper (Fairscale.peel j m)) as (i & Hi & ->).
    rewrite peel_peel. exists (j + i)%nat. split; [lia|reflexivity].
  - repeat split; reflexivity.
Qed.

(** ** More on object graphs *)

Section MoreHeapProperties.

Import Heap.
#[local] Open Scope nat_scope.

(** ** [from_defaults] and increments, by reference *)

Lemma from_defaults_run (h : heap) r s p c :
  Progress_from_defaults r s p c h =
    (Return (length h + 2),
     h ++ progress_copy (length h) (Progress.from_defaults r s p c)).
Proof.
  unfold Progress_from_defaults, Tracker_new, alloc, mbind, M_bind.
  rewrite !length_app. cbn [length]. rewrite <- !app_assoc. cbn [app].
  replace (length h + 1 + 1) with (length h + 2) by lia. reflexivity.
Qed.

Lemma same_outside_below ls (h h' : heap) n :
  same_outside ls h h' -> (forall l, l ∈ ls -> n <= l) ->
  forall a, a < n -> h' !! a = h !! a.
Proof.
  intros [_ Hsame] Hls a Ha. apply Hsame. intros Hin. apply Hls in Hin. lia.
Qed.

Lemma progress_increments_run fs : forall (h : heap) P v,
  progress_at h P v -> NoDup (progress_cells P) ->
  exists h',
    Progress_increments fs (at_progress P) h = (Return tt, h')
    /\ progress_at h' P (exec (increments fs) v)
    /\ same_outside (progress_cells P) h h'.
Proof.
  induction fs as [|f rest IH]; intros h P v Hat Hnd;
    cbn [Progress_increments increments].
  - exists h. split; [reflexivity|]. split; [assumption|apply same_outside_refl].
  - destruct (progress_increment_run h P v f Hat Hnd) as (h1 & Hrun & Hat1 & Hsame1).
    destruct (IH h1 P _ Hat1 Hnd) as (h2 & Hrun2 & Hat2 & Hsame2).
    exists h2. split; [|split].
    + erewrite bind_return by exact Hrun. exact Hrun2.
    + unfold exec in *. erewrite bind_return by apply increment_run. exact Hat2.
    + now apply same_outside_trans with h1.
Qed.

Lemma progress_cells_copy_range b l :
  l ∈ progress_cells (progress_copy_layout b) -> b <= l < b + 3.
Proof.
  unfold progress_cells, progress_copy_layout. cbn.
  rewrite !elem_of_cons, elem_of_nil. lia.
Qed.

(** X9.  By reference, [Progress.from_defaults] returns a new object (its
    address was free), leaves every existing object as it was, and reads as
    the value [from_defaults] gives; its two trackers are two objects, so any
    sequence of increments through the reference returns normally, reads
    back as the same increments on the value, and still leaves every object
    that existed before as it was. *)
Theorem from_defaults_by_reference (h : heap) (r s p c : option Z) (fs : list field) :
  exists l h1 h2,
    Progress_from_defaults r s p c h = (Return l, h1)
    /\ (forall a o, h !! a = Some o -> h1 !! a = Some o)
    /\ h !! l = None
    /\ read_progress h1 l = Some (Progress.from_defaults r s p c)
    /\ Progress_increments fs l h1 = (Return tt, h2)
    /\ read_progress h2 l = Some (exec (increments fs) (Progress.from_defaults r s p c))
    /\ (forall a o, h !! a = Some o -> h2 !! a = Some o)
    /\ length h2 = length h1.
Proof.
  pose proof (progress_at_copy h (Progress.from_defaults r s p c)) as Hat.
  destruct (progress_increments_run fs _ _ _ Hat (progress_cells_copy_NoDup (length h)))
    as (h2 & Hrun & Hat2 & Hsame).
  exists (length h + 2), (h ++ progress_copy (length h) (Progress.from_defaults r s p c)), h2.
  split; [apply from_defaults_run|].
  split; [intros a o Ha; now apply lookup_app_l_Some|].
  split; [apply lookup_ge_None; lia|].
  split; [now apply (read_progress_at _ (progress_copy_layout (length h)))|].
  split; [exact Hrun|].
  split; [now apply (read_progress_at _ (progress_copy_layout (length h)))|].
  split; [|apply Hsame].
  intros a o Ha. pose proof (lookup_lt_Some _ _ _ Ha) as Hlt.
  rewrite (same_outside_below _ _ _ (length h) Hsame).
  - now apply lookup_app_l_Some.
  - intros l Hl. apply progress_cells_copy_range in Hl. lia.
  - assumption.
Qed.


(** ** Instances that share the class-level defaults *)

Lemma defaults_hold_length h d : defaults_hold h d -> 9 <= length h.
Proof.
  intros H. destruct (H ZeroGrad) as (Hp & _). cbn in Hp.
  apply lookup_lt_Some in Hp. lia.
Qed.

Lemma defaults_hold_app h k d : defaults_hold h d -> defaults_hold (h ++ k) d.
Proof. intros H p. apply progress_at_app, H. Qed.

(** A bare instance: its own cell, and the default objects as its parts. *)
Lemma shared_layout_NoDup l : 9 <= l -> NoDup (cells (mk_layout l default_part)).
Proof.
  intros Hl. unfold cells, progress_cells. cbn.
  apply NoDup_cons. split; [rewrite !elem_of_cons, elem_of_nil; lia|].
  repeat (apply NoDup_cons; split; [rewrite ?elem_of_cons, ?elem_of_nil; lia|]).
  apply NoDup_nil_2.
Qed.

Lemma holds_shared (h : heap) l d :
  defaults_hold h d -> h !! l = Some (OOptimizationProgress 2 5 8) ->
  holds h (mk_layout l default_part) d.
Proof. intros Hd Hl. split; [exact Hl|exact Hd]. Qed.

Lemma holds_defaults (h : heap) L d : at_part L = default_part -> holds h L d -> defaults_hold h d.
Proof. intros Hp [_ H] p. rewrite <- Hp. apply H. Qed.

(** X10.  Whatever value [d] the class-level defaults hold, two
    [OptimizationProgress()] are two objects that both read as [d], and any
    sequence of increments, resets and attribute writes made through the
    first shows through the second as well, and in the class-level defaults:
    both read as [d] with the mutations applied. *)
Theorem instances_share (h : heap) (d : OptimizationProgress.t) (ms : list mutation) :
  defaults_hold h d ->
  exists l1 l2 h2,
    (a ← OptimizationProgress_new defaults;
     b ← OptimizationProgress_new defaults; mret (a, b)) h = (Return (l1, l2), h2)
    /\ l1 <> l2
    /\ read_optimization h2 l1 = Some d
    /\ read_optimization h2 l2 = Some d
    /\ read_optimization (mutates l1 ms h2) l1 = Some (mutate_values ms d)
    /\ read_optimization (mutates l1 ms h2) l2 = Some (mutate_values ms d)
    /\ defaults_hold (mutates l1 ms h2) (mutate_values ms d).
Proof.
  intros Hd. pose proof (defaults_hold_length h d Hd) as Hlen.
  set (h2 := h ++ [OOptimizationProgress 2 5 8; OOptimizationProgress 2 5 8]).
  assert (defaults_hold h2 d) as Hd2 by now apply defaults_hold_app.
  assert (h2 !! length h = Some (OOptimizationProgress 2 5 8)) as H1
    by (subst h2; now rewrite lookup_app_length).
  assert (h2 !! (length h + 1) = Some (OOptimizationProgress 2 5 8)) as H2
    by (subst h2; now rewrite lookup_app_add).
  pose proof (holds_shared h2 _ d Hd2 H1) as Hh1.
  pose proof (holds_shared h2 _ d Hd2 H2) as Hh2.
  destruct (mutates_run ms h2 _ d Hh1 (shared_layout_NoDup _ Hlen)) as [Hafter Hsame].
  cbn [at_slot] in Hafter, Hsame.
  assert (defaults_hold (mutates (length h) ms h2) (mutate_values ms d)) as Hd'
    by now apply (holds_defaults _ (mk_layout (length h) default_part)).
  exists (length h), (length h + 1), h2.
  split; [|split; [lia|split; [|split; [|split; [|split]]]]].
  - unfold OptimizationProgress_new, alloc, mbind, M_bind, mret, M_ret.
    rewrite defaults_eq. cbn [optimizer_default scheduler_default zero_grad_default].
    rewrite length_app. cbn [length]. subst h2. now rewrite <- app_assoc.
  - now apply (read_holds h2 (mk_layout (length h) default_part)).
  - now apply (read_holds h2 (mk_layout (length h + 1) default_part)).
  - now apply (read_holds _ (mk_layout (length h) default_part)).
  - apply (read_holds _ (mk_layout (length h + 1) default_part)).
    apply holds_shared; [assumption|].
    destruct Hsame as [_ Hsame]. rewrite Hsame; [assumption|].
    unfold cells, progress_cells. cbn. rewrite !elem_of_cons, elem_of_nil. lia.
  - assumption.
Qed.


(** ** The constructor, from whatever the class-level defaults hold *)

Lemma make_slot_run_any (h : heap) d :
  defaults_hold h d ->
  (fresh_one ← OptimizationProgress_new defaults; deepcopy fresh_one) h =
    (Return (at_slot (copy_layout (length h + 1))),
     h ++ OOptimizationProgress 2 5 8 :: optimization_copy (length h + 1) d).
Proof.
  intros Hd. pose proof (defaults_hold_length h d Hd) as Hlen.
  erewrite bind_return by reflexivity.
  rewrite defaults_eq. cbn [optimizer_default scheduler_default zero_grad_default].
  pose (L := mk_layout (length h) default_part).
  change (length h) with (at_slot L) at 1.
  rewrite (deepcopy_run _ L d).
  - rewrite length_app. cbn [length]. rewrite <- app_assoc. reflexivity.
  - apply holds_shared; [now apply defaults_hold_app|].
    now rewrite lookup_app_length.
  - now apply shared_layout_NoDup.
Qed.

Lemma make_slots_layouts n : forall (h : heap) d,
  defaults_hold h d ->
  exists k,
    make_slots defaults n h = (Return (map at_slot (slot_layouts (length h) n)), h ++ k)
    /\ Forall (fun L => holds (h ++ k) L d) (slot_layouts (length h) n).
Proof.
  induction n as [|n IH]; intros h d Hd.
  - exists []. split; [now rewrite app_nil_r|constructor].
  - set (k1 := OOptimizationProgress 2 5 8 :: optimization_copy (length h + 1) d).
    assert (length (h ++ k1) = length h + 11) as Hlen by now rewrite length_app.
    destruct (IH (h ++ k1) d) as (k2 & Hrun & Hslots); [now apply defaults_hold_app|].
    exists (k1 ++ k2). rewrite app_assoc. split.
    + cbn [make_slots].
      change (fresh_one ← OptimizationProgress_new defaults;
              slot ← deepcopy fresh_one;
              rest ← make_slots defaults n; mret (slot :: rest))
        with ((fresh_one ← OptimizationProgress_new defaults; deepcopy fresh_one)
              ≫= (fun slot => rest ← make_slots defaults n; mret (slot :: rest))).
      erewrite bind_return by (now apply make_slot_run_any).
      fold k1. erewrite bind_return by exact Hrun.
      rewrite Hlen. reflexivity.
    + cbn [slot_layouts]. constructor.
      * apply holds_app.
        replace (h ++ k1) with ((h ++ [OOptimizationProgress 2 5 8])
          ++ optimization_copy (length (h ++ [OOptimizationProgress 2 5 8])) d).
        -- replace (length h + 1) with (length (h ++ [OOptimizationProgress 2 5 8]))
             by (rewrite length_app; reflexivity).
           apply holds_copy.
        -- rewrite length_app. cbn [length]. now rewrite <- app_assoc.
      * now rewrite <- Hlen.
Qed.

Lemma slot_layouts_length b n : length (slot_layouts b n) = n.
Proof. revert b. induction n as [|n IH]; intros b; cbn; [reflexivity|]. now rewrite IH. Qed.

Lemma slot_layouts_range n : forall b l,
  l ∈ flat_map cells (slot_layouts b n) -> b < l < b + 11 * n.
Proof.
  induction n as [|n IH]; intros b l; cbn [slot_layouts flat_map].
  - intros H. now apply elem_of_nil in H.
  - rewrite elem_of_app. intros [H|H].
    + apply cells_copy in H. lia.
    + apply IH in H. lia.
Qed.

Lemma slot_layouts_NoDup n : forall b, NoDup (flat_map cells (slot_layouts b n)).
Proof.
  induction n as [|n IH]; intros b; cbn [slot_layouts flat_map].
  - apply NoDup_nil_2.
  - apply NoDup_app. split; [apply cells_copy_NoDup|]. split; [|apply IH].
    intros l Hl Hl'. apply cells_copy in Hl. apply slot_layouts_range in Hl'. lia.
Qed.

Lemma batch_loop_new_run (h : heap) d (n : Z) :
  defaults_hold h d ->
  exists bl k,
    BatchLoopProgress_new defaults n h = (Return bl, h ++ k)
    /\ batch_loop_at (h ++ k) bl (progress_copy_layout (length h))
         (slot_layouts (length h + 3) (Z.to_nat n))
         (BatchLoopProgress.mk Progress.fresh (Some 0%Z) n (replicate (Z.to_nat n) d)).
Proof.
  intros Hd.
  set (h1 := h ++ progress_copy (length h) Progress.fresh).
  assert (length h1 = length h + 3) as Hlen1 by (subst h1; now rewrite length_app).
  destruct (make_slots_layouts (Z.to_nat n) h1 d) as (k & Hrun & Hslots);
    [now apply defaults_hold_app|].
  rewrite Hlen1 in Hrun, Hslots.
  exists (mk_batch_loop (length h + 2) (Some 0%Z) n
            (map at_slot (slot_layouts (length h + 3) (Z.to_nat n)))),
         (progress_copy (length h) Progress.fresh ++ k).
  rewrite app_assoc. fold h1. split.
  - unfold BatchLoopProgress_new.
    erewrite bind_return by apply progress_new_run.
    erewrite bind_return by exact Hrun. reflexivity.
  - repeat split.
    + apply lookup_app_l_Some. subst h1. cbn. now rewrite lookup_app_add.
    + apply lookup_app_l_Some. subst h1. cbn. now rewrite lookup_app_length.
    + apply lookup_app_l_Some. subst h1. cbn. now rewrite lookup_app_add.
    + cbn [BatchLoopProgress.optimizations].
      apply Forall2_replicate_r; [apply slot_layouts_length|exact Hslots].
    + apply NoDup_app. split; [apply progress_cells_copy_NoDup|].
      split; [|apply slot_layouts_NoDup].
      intros l Hl Hl'. apply progress_cells_copy_range in Hl.
      apply slot_layouts_range in Hl'. lia.
Qed.


(** ** Methods run by reference on a separated [BatchLoopProgress] *)

Lemma Forall2_holds_frame ls (h h' : heap) Ls vs :
  Forall2 (holds h) Ls vs -> same_outside ls h h' ->
  (forall l, l ∈ flat_map cells Ls -> l ∉ ls) ->
  Forall2 (holds h') Ls vs.
Proof.
  intros H Hsame. induction H as [|L v Ls vs HL _ IH]; intros Hout; [constructor|].
  cbn [flat_map] in Hout. constructor.
  - apply holds_frame with ls h; [assumption|assumption|].
    intros l Hl. apply Hout. rewrite elem_of_app. now left.
  - apply IH. intros l Hl. apply Hout. rewrite elem_of_app. now right.
Qed.

Lemma read_batch_loop_at (h : heap) bl Pb Ls v :
  batch_loop_at h bl Pb Ls v -> read_batch_loop h bl = Some v.
Proof.
  intros (Hb & Ho & Hidx & Hnum & Hat & Hslots & _). unfold read_batch_loop.
  rewrite Hb, (read_progress_at _ _ _ Hat). cbn [mbind option_bind].
  assert (mapM (read_optimization h) (optimizations bl)
          = Some (BatchLoopProgress.optimizations v)) as ->.
  { apply mapM_Some. rewrite Ho. apply Forall2_fmap_l.
    eapply Forall2_impl; [exact Hslots|]. intros L o. apply read_holds. }
  cbn [mbind option_bind]. rewrite Hidx, Hnum. now destruct v.
Qed.

Lemma reset_side_value p o :
  exec (mutate_value (MReset p Current)) o
  = put (_part p) (reset_current (view (_part p) o)) o.
Proof.
  unfold mutate_value, exec. rewrite zoom_compose.
  erewrite zoom_run by (apply zoom_run, reset_run). reflexivity.
Qed.

Lemma reset_slot_value o :
  exec (mutate_value (MReset ZeroGrad Current))
    (exec (mutate_value (MReset Scheduler Current))
       (exec (mutate_value (MReset Optimizer Current)) o))
  = reset_slot_currents o.
Proof. rewrite !reset_side_value. now destruct o. Qed.

Lemma result_reset_side p o : result (mutate_value (MReset p Current)) o = Return tt.
Proof.
  unfold mutate_value, result. rewrite zoom_compose.
  erewrite zoom_run by (apply zoom_run, reset_run). reflexivity.
Qed.

Lemma reset_slot_run_at (h : heap) L o :
  holds h L o -> NoDup (cells L) ->
  exists h',
    reset_slot (at_slot L) h = (Return tt, h')
    /\ holds h' L (reset_slot_currents o)
    /\ same_outside (cells L) h h'.
Proof.
  intros Hh Hnd.
  destruct (mutate_run h L o (MReset Optimizer Current) Hh Hnd) as (h1 & Hr1 & Hh1 & Hs1).
  destruct (mutate_run h1 L _ (MReset Scheduler Current) Hh1 Hnd) as (h2 & Hr2 & Hh2 & Hs2).
  destruct (mutate_run h2 L _ (MReset ZeroGrad Current) Hh2 Hnd) as (h3 & Hr3 & Hh3 & Hs3).
  rewrite result_reset_side in Hr1, Hr2, Hr3. rewrite reset_slot_value in Hh3.
  exists h3. split; [|split].
  - unfold reset_slot. erewrite bind_return by exact Hr1.
    erewrite bind_return by exact Hr2. exact Hr3.
  - assumption.
  - eapply same_outside_trans; [|eassumption].
    eapply same_outside_trans; eassumption.
Qed.

Lemma reset_slots_run Ls : forall (h : heap) vs,
  Forall2 (holds h) Ls vs -> NoDup (flat_map cells Ls) ->
  exists h',
    for_each_loc reset_slot (map at_slot Ls) h = (Return tt, h')
    /\ Forall2 (holds h') Ls (map reset_slot_currents vs)
    /\ same_outside (flat_map cells Ls) h h'.
Proof.
  induction Ls as [|L Ls IH]; intros h vs Hholds Hnd.
  - inversion Hholds; subst. exists h. split; [reflexivity|].
    split; [constructor|apply same_outside_refl].
  - inversion Hholds as [|? v ? vs' HL Hrest]; subst.
    cbn [flat_map] in Hnd. apply NoDup_app in Hnd as (HndL & Hdisj & HndLs).
    destruct (reset_slot_run_at h L v HL HndL) as (h1 & Hr1 & Hh1 & Hs1).
    assert (Forall2 (holds h1) Ls vs') as Hrest1.
    { apply Forall2_holds_frame with (cells L) h; [assumption|assumption|].
      intros l Hl Hl'. now apply (Hdisj l). }
    destruct (IH h1 vs' Hrest1 HndLs) as (h2 & Hr2 & Hh2 & Hs2).
    exists h2. split; [|split].
    + cbn [map for_each_loc]. erewrite bind_return by exact Hr1. exact Hr2.
    + cbn [map]. constructor; [|assumption].
      apply holds_frame with (flat_map cells Ls) h1; [assumption|assumption|].
      intros l Hl. now apply Hdisj.
    + cbn [flat_map]. apply same_outside_trans with h1.
      * eapply same_outside_weaken; [|eassumption].
        intros l Hl. rewrite elem_of_app. now left.
      * eapply same_outside_weaken; [|eassumption].
        intros l Hl. rewrite elem_of_app. now right.
Qed.

Lemma batch_loop_reset_run_at (h : heap) bl Pb Ls v :
  batch_loop_at h bl Pb Ls v ->
  exists h',
    reset_on_batch bl h = (Return tt, h')
    /\ batch_loop_at h' bl Pb Ls (exec BatchLoopProgress.reset_on_batch v)
    /\ same_outside (progress_cells Pb ++ flat_map cells Ls) h h'.
Proof.
  intros (Hb & Ho & Hidx & Hnum & Hat & Hslots & Hnd).
  apply NoDup_app in Hnd as (HndP & Hdisj & HndLs).
  destruct (reset_slots_run Ls h _ Hslots HndLs) as (h1 & Hr1 & Hh1 & Hs1).
  assert (progress_at h1 Pb (BatchLoopProgress.batch v)) as Hat1.
  { apply progress_at_frame with (flat_map cells Ls) h; [assumption|assumption|].
    intros l Hl. now apply Hdisj. }
  destruct (at_tracker_side h1 Pb _ Current Tracker.reset Hat1 HndP)
    as (h2 & Hr2 & Hat2 & Hs2).
  assert (result (zoom (_side Current) Tracker.reset) (BatchLoopProgress.batch v) = Return tt)
    as Hres by (unfold result; erewrite zoom_run by apply reset_run; reflexivity).
  assert (exec (zoom (_side Current) Tracker.reset) (BatchLoopProgress.batch v)
          = reset_current (BatchLoopProgress.batch v))
    as Hexec by (unfold exec; erewrite zoom_run by apply reset_run; reflexivity).
  rewrite Hres in Hr2. rewrite Hexec in Hat2.
  exists h2. split; [|split].
  - unfold reset_on_batch. rewrite Ho.
    erewrite bind_return by exact Hr1.
    rewrite Hb. erewrite bind_return by (eapply side_of_run; exact Hat1).
    exact Hr2.
  - unfold exec. rewrite batch_loop_reset_on_batch_run. cbn [snd].
    repeat split; try assumption.
    + apply Hat2.
    + apply Hat2.
    + apply Hat2.
    + cbn [BatchLoopProgress.optimizations].
      apply Forall2_holds_frame with (progress_cells Pb) h1; [assumption|assumption|].
      intros l Hl Hl'. now apply (Hdisj l).
    + apply NoDup_app. now repeat split.
  - apply same_outside_trans with h1.
    + eapply same_outside_weaken; [|eassumption].
      intros l Hl. rewrite elem_of_app. now right.
    + eapply same_outside_weaken; [|eassumption].
      intros l Hl. rewrite elem_of_app. now left.
Qed.


Lemma slot_layouts_lookup n : forall b i L,
  slot_layouts b n !! i = Some L -> L = copy_layout (b + 11 * i + 1).
Proof.
  induction n as [|n IH]; intros b i L; cbn [slot_layouts]; [discriminate|].
  destruct i as [|i]; cbn [lookup list_lookup].
  - intros [= <-]. f_equal. lia.
  - intros H. apply IH in H as ->. f_equal. lia.
Qed.

Lemma slots_mutate_run Ls : forall (h : heap) vs i L o m,
  Forall2 (holds h) Ls vs -> NoDup (flat_map cells Ls) ->
  Ls !! i = Some L -> vs !! i = Some o ->
  exists h',
    mutate (at_slot L) m h = (result (mutate_value m) o, h')
    /\ Forall2 (holds h') Ls (<[i := exec (mutate_value m) o]> vs)
    /\ same_outside (cells L) h h'
    /\ (forall l, l ∈ cells L -> l ∈ flat_map cells Ls).
Proof.
  induction Ls as [|L0 Ls IH]; intros h vs i L o m Hholds Hnd HL Ho; [discriminate|].
  inversion Hholds as [|? v0 ? vs' HL0 Hrest]; subst.
  cbn [flat_map] in Hnd |- *. apply NoDup_app in Hnd as (HndL0 & Hdisj & HndLs).
  destruct i as [|i]; cbn [lookup list_lookup] in HL, Ho.
  - injection HL as <-. injection Ho as <-.
    destruct (mutate_run h L0 v0 m HL0 HndL0) as (h' & Hrun & Hh' & Hsame).
    exists h'. split; [exact Hrun|]. split; [|split; [exact Hsame|]].
    + cbn. constructor; [assumption|].
      apply Forall2_holds_frame with (cells L0) h; [assumption|assumption|].
      intros l Hl Hl'. now apply (Hdisj l).
    + intros l Hl. rewrite elem_of_app. now left.
  - destruct (IH h vs' i L o m Hrest HndLs HL Ho) as (h' & Hrun & Hh' & Hsame & Hsub).
    exists h'. split; [exact Hrun|]. split; [|split; [exact Hsame|]].
    + cbn. constructor; [|assumption].
      apply holds_frame with (cells L) h; [assumption|assumption|].
      intros l Hl Hl'. apply (Hdisj l Hl). now apply Hsub.
    + intros l Hl. rewrite elem_of_app. right. now apply Hsub.
Qed.

(** X11.  For every integer [n], also zero or negative, and whatever value
    [d] the class-level defaults hold, [BatchLoopProgress(num_optimizers=n)]
    returns normally and only allocates: its [batch] reads as [Progress()],
    [num_optimizers] records [n] as given, [optimizations] has
    [max(n, 0)] slots that read as [d], every object of the result is new and
    none is used twice, and mutations made through one slot show in that
    slot only. *)
Theorem batch_loop_constructor (h : heap) (d : OptimizationProgress.t) (n : Z) :
  defaults_hold h d ->
  exists bl k Pb Ls,
    BatchLoopProgress_new defaults n h = (Return bl, h ++ k)
    /\ batch_loop_at (h ++ k) bl Pb Ls
         (BatchLoopProgress.mk Progress.fresh (Some 0%Z) n (replicate (Z.to_nat n) d))
    /\ read_batch_loop (h ++ k) bl
         = Some (BatchLoopProgress.mk Progress.fresh (Some 0%Z) n
                   (replicate (Z.to_nat n) d))
    /\ length (optimizations bl) = Z.to_nat n
    /\ num_optimizers bl = n
    /\ ((n <= 0)%Z -> optimizations bl = [])
    /\ (forall l, l ∈ progress_cells Pb ++ flat_map cells Ls -> length h <= l)
    /\ (forall i j li lj ms,
          i <> j ->
          optimizations bl !! i = Some li ->
          optimizations bl !! j = Some lj ->
          read_optimization (mutates li ms (h ++ k)) li = Some (mutate_values ms d)
          /\ read_optimization (mutates li ms (h ++ k)) lj = Some d).
Proof.
  intros Hd. destruct (batch_loop_new_run h d n Hd) as (bl & k & Hrun & Hat).
  exists bl, k, (progress_copy_layout (length h)),
    (slot_layouts (length h + 3) (Z.to_nat n)).
  pose proof Hat as (Hb & Ho & Hidx & Hnum & Hbat & Hslots & Hnd).
  split; [exact Hrun|]. split; [exact Hat|].
  split; [now apply read_batch_loop_at with (progress_copy_layout (length h))
                 (slot_layouts (length h + 3) (Z.to_nat n))|].
  split; [now rewrite Ho, length_map, slot_layouts_length|].
  split; [exact Hnum|].
  split; [intros Hn; rewrite Ho; now replace (Z.to_nat n) with 0 by lia|].
  split.
  - intros l. rewrite elem_of_app. intros [Hl|Hl].
    + apply progress_cells_copy_range in Hl. lia.
    + apply slot_layouts_range in Hl. lia.
  - intros i j li lj ms Hij Hi Hj. rewrite Ho in Hi, Hj.
    apply list_lookup_fmap_Some in Hi as (Li & -> & HLi).
    apply list_lookup_fmap_Some in Hj as (Lj & -> & HLj).
    cbn [BatchLoopProgress.optimizations] in Hslots.
    destruct (Forall2_lookup_l _ _ _ _ _ Hslots HLi) as (vi & Hvi & Hhi).
    destruct (Forall2_lookup_l _ _ _ _ _ Hslots HLj) as (vj & Hvj & Hhj).
    apply lookup_replicate in Hvi as [-> _]. apply lookup_replicate in Hvj as [-> _].
    apply slot_layouts_lookup in HLi, HLj. subst Li Lj.
    destruct (mutates_run ms (h ++ k) _ _ Hhi (cells_copy_NoDup _)) as [Hafter Hsame].
    split; [now apply read_holds|].
    apply read_holds. eapply holds_frame; [exact Hhj|exact Hsame|].
    intros l Hlj Hli. apply cells_copy in Hlj. apply cells_copy in Hli. lia.
Qed.

(** X13.  On a [BatchLoopProgress] none of whose objects is used twice,
    [reset_on_batch()] run by reference returns normally, reads back as
    [reset_on_batch] on the value, keeps the objects separate and changes no
    object outside the [BatchLoopProgress]. *)
Theorem reset_on_batch_by_reference (h : heap) bl Pb Ls (v : BatchLoopProgress.t) :
  batch_loop_at h bl Pb Ls v ->
  exists h',
    reset_on_batch bl h = (Return tt, h')
    /\ batch_loop_at h' bl Pb Ls (exec BatchLoopProgress.reset_on_batch v)
    /\ read_batch_loop h' bl = Some (exec BatchLoopProgress.reset_on_batch v)
    /\ same_outside (progress_cells Pb ++ flat_map cells Ls) h h'.
Proof.
  intros Hat. destruct (batch_loop_reset_run_at h bl Pb Ls v Hat) as (h' & Hrun & Hat' & Hsame).
  exists h'. split; [exact Hrun|]. split; [exact Hat'|].
  split; [now apply read_batch_loop_at with Pb Ls|exact Hsame].
Qed.

(** X12.  Counting done through a bare [OptimizationProgress()] leaks into
    every [BatchLoopProgress] built afterwards: its slots start from the
    mutated defaults, not from zero. *)
Theorem defaults_leak (rest : heap) (ms : list mutation) (n : Z) :
  exists l h1 bl h2,
    OptimizationProgress_new defaults (imported ++ rest) = (Return l, h1)
    /\ read_optimization h1 l = Some OptimizationProgress.fresh
    /\ BatchLoopProgress_new defaults n (mutates l ms h1) = (Return bl, h2)
    /\ length (optimizations bl) = Z.to_nat n
    /\ forall j lj,
         optimizations bl !! j = Some lj ->
         read_optimization h2 lj = Some (mutate_values ms OptimizationProgress.fresh).
Proof.
  set (h0 := imported ++ rest).
  assert (defaults_hold h0 OptimizationProgress.fresh) as Hd0
    by apply defaults_intact_imported.
  pose proof (defaults_hold_length _ _ Hd0) as Hlen.
  set (h1 := h0 ++ [OOptimizationProgress 2 5 8]).
  assert (holds h1 (mk_layout (length h0) default_part) OptimizationProgress.fresh) as Hh1.
  { apply holds_shared; [now apply defaults_hold_app|].
    subst h1. now rewrite lookup_app_length. }
  destruct (mutates_run ms h1 _ _ Hh1 (shared_layout_NoDup _ Hlen)) as [Hafter _].
  cbn [at_slot] in Hafter.
  pose proof (holds_defaults _ (mk_layout (length h0) default_part) _ eq_refl Hafter) as Hd'.
  destruct (batch_loop_new_run _ _ n Hd') as (bl & k & Hrun & Hat).
  exists (length h0), h1, bl, (mutates (length h0) ms h1 ++ k).
  split; [reflexivity|].
  split; [now apply (read_holds h1 (mk_layout (length h0) default_part))|].
  split; [exact Hrun|].
  destruct Hat as (_ & Ho & _ & _ & _ & Hslots & _).
  split; [now rewrite Ho, length_map, slot_layouts_length|].
  intros j lj Hj. rewrite Ho in Hj.
  apply list_lookup_fmap_Some in Hj as (Lj & -> & HLj).
  cbn [BatchLoopProgress.optimizations] in Hslots.
  destruct (Forall2_lookup_l _ _ _ _ _ Hslots HLj) as (vj & Hvj & Hhj).
  apply lookup_replicate in Hvj as [-> _]. now apply read_holds.
Qed.

(** X14.  On a [BatchLoopProgress] none of whose objects is used twice, an
    increment, reset or attribute write made through slot [i] has the
    outcome it has on the value of that slot, reads back as the value with
    slot [i] replaced, and changes no object outside the
    [BatchLoopProgress]. *)
Theorem slot_mutation_by_reference (h : heap) bl Pb Ls (v : BatchLoopProgress.t)
    (i : nat) (li : loc) (o : OptimizationProgress.t) (m : mutation) :
  batch_loop_at h bl Pb Ls v ->
  optimizations bl !! i = Some li ->
  BatchLoopProgress.optimizations v !! i = Some o ->
  exists h',
    mutate li m h = (result (mutate_value m) o, h')
    /\ batch_loop_at h' bl Pb Ls
         (put BatchLoopProgress._optimizations
              (<[i := exec (mutate_value m) o]> (BatchLoopProgress.optimizations v)) v)
    /\ read_batch_loop h' bl
         = Some (put BatchLoopProgress._optimizations
                   (<[i := exec (mutate_value m) o]> (BatchLoopProgress.optimizations v)) v)
    /\ same_outside (progress_cells Pb ++ flat_map cells Ls) h h'.
Proof.
  intros Hat Hi Ho. pose proof Hat as (Hb & Hopts & Hidx & Hnum & Hbat & Hslots & Hnd).
  rewrite Hopts in Hi. apply list_lookup_fmap_Some in Hi as (L & -> & HL).
  pose proof Hnd as Hnd'. apply NoDup_app in Hnd' as (HndP & Hdisj & HndLs).
  destruct (slots_mutate_run Ls h _ i L o m Hslots HndLs HL Ho)
    as (h' & Hrun & Hslots' & Hsame & Hsub).
  assert (batch_loop_at h' bl Pb Ls
            (put BatchLoopProgress._optimizations
               (<[i := exec (mutate_value m) o]> (BatchLoopProgress.optimizations v)) v))
    as Hat'.
  { assert (progress_at h' Pb (BatchLoopProgress.batch v)) as Hbat'.
    { apply progress_at_frame with (cells L) h; [assumption|assumption|].
      intros l Hl Hl'. apply (Hdisj l Hl). now apply Hsub. }
    repeat split; try assumption; apply Hbat'. }
  exists h'. split; [exact Hrun|]. split; [exact Hat'|].
  split; [now apply read_batch_loop_at with Pb Ls|].
  eapply same_outside_weaken; [|exact Hsame].
  intros l Hl. rewrite elem_of_app. right. now apply Hsub.
Qed.

(** X15.  On a [BatchLoopProgress] none of whose objects is used twice,
    [batch.increment_<f>()] run by reference returns normally, reads back as
    the increment on the value, and changes no object outside the
    [BatchLoopProgress]. *)
Theorem batch_increment_by_reference (h : heap) bl Pb Ls (v : BatchLoopProgress.t)
    (f : field) :
  batch_loop_at h bl Pb Ls v ->
  exists h',
    Progress_increment f (batch bl) h = (Return tt, h')
    /\ batch_loop_at h' bl Pb Ls
         (exec (zoom BatchLoopProgress._batch (Progress.increment f)) v)
    /\ read_batch_loop h' bl
         = Some (exec (zoom BatchLoopProgress._batch (Progress.increment f)) v)
    /\ same_outside (progress_cells Pb ++ flat_map cells Ls) h h'.
Proof.
  intros Hat. pose proof Hat as (Hb & Hopts & Hidx & Hnum & Hbat & Hslots & Hnd).
  pose proof Hnd as Hnd'. apply NoDup_app in Hnd' as (HndP & Hdisj & HndLs).
  destruct (progress_increment_run h Pb _ f Hbat HndP) as (h' & Hrun & Hbat' & Hsame).
  assert (batch_loop_at h' bl Pb Ls
            (exec (zoom BatchLoopProgress._batch (Progress.increment f)) v)) as Hat'.
  { unfold exec. erewrite zoom_run by apply increment_run. cbn [snd].
    repeat split; try assumption; try apply Hbat'.
    cbn. apply Forall2_holds_frame with (progress_cells Pb) h; [assumption|assumption|].
    intros l Hl Hl'. now apply (Hdisj l). }
  exists h'. split; [now rewrite Hb|]. split; [exact Hat'|].
  split; [now apply read_batch_loop_at with Pb Ls|].
  eapply same_outside_weaken; [|exact Hsame].
  intros l Hl. rewrite elem_of_app. now left.
Qed.

End MoreHeapProperties.

Lemma instances_share_witness :
  exists l1 l2 h2,
    (a ← Heap.OptimizationProgress_new Heap.defaults;
     b ← Heap.OptimizationProgress_new Heap.defaults; mret (a, b)) Heap.imported
      = (Return (l1, l2), h2)
    /\ Heap.read_optimization (Heap.mutates l1 [MIncrement Optimizer Ready] h2) l2
       = Some (mutate_values [MIncrement Optimizer Ready] OptimizationProgress.fresh).
Proof.
  destruct (instances_share Heap.imported OptimizationProgress.fresh
              [MIncrement Optimizer Ready])
    as (l1 & l2 & h2 & Hrun & _ & _ & _ & _ & Hshare & _).
  { intros p. destruct p; repeat split. }
  exists l1, l2, h2. split; assumption.
Defined.

Lemma batch_loop_constructor_witness :
  exists bl k,
    Heap.BatchLoopProgress_new Heap.defaults (-1) Heap.imported
      = (Return bl, Heap.imported ++ k)
    /\ Heap.optimizations bl = []
    /\ Heap.num_optimizers bl = (-1).
Proof.
  destruct (batch_loop_constructor Heap.imported OptimizationProgress.fresh (-1))
    as (bl & k & Pb & Ls & Hrun & _ & _ & _ & Hnum & Hempty & _).
  { intros p. destruct p; repeat split. }
  exists bl, k. split; [exact Hrun|]. split; [apply Hempty; lia|exact Hnum].
Defined.

Lemma reset_on_batch_by_reference_witness :
  exists bl h h',
    Heap.BatchLoopProgress_new Heap.defaults 1 Heap.imported = (Return bl, h)
    /\ Heap.reset_on_batch bl h = (Return tt, h')
    /\ Heap.read_batch_loop h' bl
       = Some (exec BatchLoopProgress.reset_on_batch BatchLoopProgress.fresh).
Proof.
  destruct (batch_loop_new_run Heap.imported OptimizationProgress.fresh 1)
    as (bl & k & Hrun & Hat).
  { intros p. destruct p; repeat split. }
  destruct (reset_on_batch_by_reference _ _ _ _ _ Hat) as (h' & Hreset & _ & Hread & _).
  exists bl, (Heap.imported ++ k), h'. repeat split; assumption.
Defined.

Lemma slot_mutation_by_reference_witness :
  exists bl h h',
    Heap.BatchLoopProgress_new Heap.defaults 1 Heap.imported = (Return bl, h)
    /\ Heap.optimizations bl = [22%nat]
    /\ Heap.mutate 22%nat (MIncrement Scheduler Ready) h = (Return tt, h')
    /\ Heap.read_batch_loop h' bl
       = Some (BatchLoopProgress.mk Progress.fresh (Some 0) 1
                 [exec (mutate_value (MIncrement Scheduler Ready)) OptimizationProgress.fresh]).
Proof.
  destruct (batch_loop_new_run Heap.imported OptimizationProgress.fresh 1)
    as (bl & k & Hrun & Hat).
  { intros p. destruct p; repeat split. }
  assert (Heap.optimizations bl = [22%nat]) as Hopts.
  { vm_compute in Hrun. injection Hrun as <- _. reflexivity. }
  destruct (slot_mutation_by_reference _ _ _ _ _ 0%nat 22%nat OptimizationProgress.fresh
              (MIncrement Scheduler Ready) Hat)
    as (h' & Hmut & _ & Hread & _); [now rewrite Hopts|reflexivity|].
  exists bl, (Heap.imported ++ k), h'.
  split; [exact Hrun|]. split; [exact Hopts|]. split; [exact Hmut|exact Hread].
Defined.

Lemma batch_increment_by_reference_witness :
  exists bl h h',
    Heap.BatchLoopProgress_new Heap.defaults 1 Heap.imported = (Return bl, h)
    /\ Heap.Progress_increment Ready (Heap.batch bl) h = (Return tt, h')
    /\ Heap.read_batch_loop h' bl
       = Some (exec (zoom BatchLoopProgress._batch (Progress.increment Ready))
                    BatchLoopProgress.fresh).
Proof.
  destruct (batch_loop_new_run Heap.imported OptimizationProgress.fresh 1)
    as (bl & k & Hrun & Hat).
  { intros p. destruct p; repeat split. }
  destruct (batch_increment_by_reference _ _ _ _ _ Ready Hat) as (h' & Hinc & _ & Hread & _).
  exists bl, (Heap.imported ++ k), h'. repeat split; assumption.
Defined.
